(** * Thread control and source-level stepping of the debugger (proc/threads.go)

    A shallow embedding of [proc/threads.go]: the thread record, the
    process-wide breakpoint table, resume and single-step dispatch, the
    computation of the temporary breakpoints of a step-over, the lookup of the
    goroutine running on a thread and the bookkeeping of a breakpoint hit.

    Everything the file calls but does not define (ptrace-level thread I/O,
    the debug-information tables, the breakpoint writer, the decoder of the
    goroutine structure) is collected in one record of external operations,
    [Externals], over an opaque type [W] of states of the traced process. *)

From stdpp Require Import gmap strings list fin_maps.
From Stdlib Require Import ZArith Lia Ascii String List.
Import ListNotations.

Local Open Scope string_scope.
Local Open Scope Z_scope.

(** ** Machine integers

    [uint64] and [uintptr] values are kept in [Z]; every arithmetic operation
    of the source on them is followed by its reduction modulo [2^64]. *)

Definition u64 (z : Z) : Z := z mod 2 ^ 64.
Definition add64 (a b : Z) : Z := u64 (a + b).
Definition sub64 (a b : Z) : Z := u64 (a - b).

(** A Go [int] is 64 bits wide on the hosts of the debugger; a result
    that leaves [[-2^63, 2^63)] wraps around in two's complement. *)
Definition wrap_int (z : Z) : Z := (z + 2 ^ 63) mod 2 ^ 64 - 2 ^ 63.

(** ** Errors and results *)

(** The error values of the file: [ThreadBlockedError{}],
    [GoroutineExitingError{goid}], the [BreakpointExistsError] the installer
    of temporary breakpoints reports, and every other error value
    ([errors.New], [fmt.Errorf], errors of the operating system). *)
Inductive error : Type :=
  | ThreadBlockedError
  | GoroutineExitingError (goid : Z)
  | BreakpointExistsError (addr : Z)
  | errorString (msg : string).

#[global] Instance error_eq_dec : EqDecision error.
Proof. solve_decision. Defined.

(** [err.(BreakpointExistsError)]: the type assertion of
    [setNextTempBreakpoints]. *)
Definition isBreakpointExistsError (e : error) : bool :=
  match e with BreakpointExistsError _ => true | _ => false end.

(** A call returns normally with a value ([Ok]; for a function returning only
    [error], [Ok tt] is the [nil] error), returns an error ([Err]) or panics
    ([Panic]). *)
Inductive result (A : Type) : Type :=
  | Ok (a : A)
  | Err (e : error)
  | Panic (msg : string).
Arguments Ok {A} a.
Arguments Err {A} e.
Arguments Panic {A} msg.

(** ** Data *)

(** [*gosym.Func]: only the name is read. *)
Record Func : Type := { Name : string }.

(** Addresses of [Breakpoint] objects: the table and the thread hold
    [*Breakpoint] pointers to the same objects. *)
Abbreviation ptr := positive.

Module Breakpoint.
(** The fields of [Breakpoint] that [threads.go] reads or writes.
    [HitCount] is a [map[int]uint64]; [None] is the nil map of a
    [new(Breakpoint)]. *)
Record t : Type := mk {
  FunctionName : string;
  File : string;
  Line : Z;
  Addr : Z;
  Temp : bool;
  HitCount : option (gmap Z Z);
  TotalHitCount : Z
}.

(** [new(Breakpoint)]: the zero value. *)
Definition zero : t :=
  {| FunctionName := ""; File := ""; Line := 0; Addr := 0; Temp := false;
     HitCount := None; TotalHitCount := 0 |}.
End Breakpoint.

Module Location.
Record t : Type := mk {
  PC : Z;
  File : string;
  Line : Z;
  Fn : option Func
}.
End Location.

Module Thread.
(** [Status] and [os] belong to the operating-system layer and live in the
    opaque state [W]; [dbp] is the enclosing [State]. *)
Record t : Type := mk {
  ID : Z;
  CurrentBreakpoint : option ptr;
  BreakpointConditionMet : bool;
  BreakpointConditionError : option error;
  singleStepping : bool;
  running : bool
}.
End Thread.

Module G.
(** The goroutine handle: [thread] is the back-reference set by [GetG]
    (the id of the resolving thread). *)
Record t : Type := mk {
  ID : Z;
  DeferPC : Z;
  thread : option Z
}.
End G.

Inductive ResumeMode : Type :=
  | ModeStepInstruction
  | ModeResume
  | ModeOther (name : string).

(** Modelled from the spec: the frame descriptor, declared in
    [pkg/dwarf/frame]: "PC range of one function activation plus a
    membership test". *)
Module FDE.
Record t : Type := mk { begin : Z; end_ : Z }.
Definition Begin (fde : t) : Z := begin fde.
Definition End (fde : t) : Z := end_ fde.
Definition Cover (fde : t) (addr : Z) : bool :=
  (begin fde <=? addr) && (addr <? end_ fde).
End FDE.

(** [dwarf.Type] as far as [newGVariable] builds it: a type found by name,
    or [&dwarf.PtrType{CommonType{ByteSize, "", reflect.Ptr, 0}, typ}]. *)
Inductive DwarfType : Type :=
  | NamedType (name : string)
  | PtrType (ByteSize : Z) (elem : DwarfType).

(** [*Variable], the typed memory reference handed to the decoder. *)
Module Variable_.
Record t : Type := mk { Name : string; Addr : Z; DwarfType_ : DwarfType }.
End Variable_.

Record Registers : Type := { TLS : Z }.

(** ** External operations

    [W] is the state of the traced process and of the operating-system side
    of the thread (registers, memory, wait status).  A Go function returning
    [(T, error)] is an [error + T]; one returning only [error] an
    [option error] ([None] is [nil]); operations that act on the process
    return the new state as well. *)
Record Externals (W : Type) : Type := {
  (* architecture *)
  arch_BreakpointSize : Z;
  arch_BreakpointInstruction : list Z;
  arch_GStructOffset : Z;
  arch_PtrSize : Z;
  GOOS : string;
  (* debug information *)
  Dwarf_LookupFunc : string -> option Func;
  Dwarf_PCToLine : Z -> string * Z * option Func;
  Dwarf_LineToPC : string -> Z -> error + Z;
  Dwarf_PCToFunc : Z -> option Func;
  Frame_FDEForPC : Z -> error + FDE.t;
  Line_table : list (Z * string);
  dbp_findType : string -> error + DwarfType;
  (* operating-system thread I/O *)
  thread_PC : W -> error + Z;
  thread_Registers : W -> error + Registers;
  regs_SetPC : W -> Registers -> Z -> option error * W;
  thread_readMemory : W -> Z -> Z -> error + list Z;
  thread_singleStep : W -> option error * W;
  thread_resumeWithSig : W -> Z -> option error * W;
  thread_blocked : W -> bool;
  thread_ReturnAddress : W -> error + Z;
  (* breakpoints.go *)
  bp_Clear : W -> Breakpoint.t -> option error * W;
  createAndWriteBreakpoint :
    W -> Location.t -> bool -> list Z -> option error * W;
  writeSoftwareBreakpoint : W -> Z -> option error * W;
  bp_checkCondition : W -> Breakpoint.t -> bool * option error;
  (* variables.go *)
  parseG : W -> Variable_.t -> error + G.t
}.
Arguments arch_BreakpointSize {W}.
Arguments arch_BreakpointInstruction {W}.
Arguments arch_GStructOffset {W}.
Arguments arch_PtrSize {W}.
Arguments GOOS {W}.
Arguments Dwarf_LookupFunc {W}.
Arguments Dwarf_PCToLine {W}.
Arguments Dwarf_LineToPC {W}.
Arguments Dwarf_PCToFunc {W}.
Arguments Frame_FDEForPC {W}.
Arguments Line_table {W}.
Arguments dbp_findType {W}.
Arguments thread_PC {W}.
Arguments thread_Registers {W}.
Arguments regs_SetPC {W}.
Arguments thread_readMemory {W}.
Arguments thread_singleStep {W}.
Arguments thread_resumeWithSig {W}.
Arguments thread_blocked {W}.
Arguments thread_ReturnAddress {W}.
Arguments bp_Clear {W}.
Arguments createAndWriteBreakpoint {W}.
Arguments writeSoftwareBreakpoint {W}.
Arguments bp_checkCondition {W}.
Arguments parseG {W}.

(** ** State: one thread and the process it belongs to *)

Record State (W : Type) : Type := mkState {
  thread : Thread.t;
  Breakpoints : gmap Z ptr;          (* thread.dbp.Breakpoints *)
  heap : gmap ptr Breakpoint.t;      (* the Breakpoint objects *)
  inferior : W;
  logged : list error                (* errors passed to the logger *)
}.
Arguments mkState {W}.
Arguments thread {W}.
Arguments Breakpoints {W}.
Arguments heap {W}.
Arguments inferior {W}.
Arguments logged {W}.

(** [return err] for an [err] that may be [nil]. *)
Definition of_err (err : option error) : result unit :=
  match err with
  | None => Ok tt
  | Some e => Err e
  end.

(** [binary.LittleEndian.Uint64]: indexing [b[7]] panics on a shorter
    slice ([None]). *)
Definition LittleEndian_Uint64 (b : list Z) : option Z :=
  match b with
  | b0 :: b1 :: b2 :: b3 :: b4 :: b5 :: b6 :: b7 :: _ =>
      Some (Z.lor b0 (Z.lor (Z.shiftl b1 8) (Z.lor (Z.shiftl b2 16)
           (Z.lor (Z.shiftl b3 24) (Z.lor (Z.shiftl b4 32)
           (Z.lor (Z.shiftl b5 40) (Z.lor (Z.shiftl b6 48)
                  (Z.shiftl b7 56))))))))
  | _ => None
  end.

(** [filepath.Ext]: the suffix beginning at the last dot of the last
    element of the path, empty when there is none.  [ext_scan] walks the
    path from its end, as the library's loop does. *)
Fixpoint ext_scan (rev_path : list ascii) (suffix : list ascii) : list ascii :=
  match rev_path with
  | [] => []
  | c :: rest =>
      if Ascii.eqb c "/"%char then []
      else if Ascii.eqb c "."%char then c :: suffix
      else ext_scan rest (c :: suffix)
  end.

Definition filepath_Ext (path : string) : string :=
  string_of_list_ascii (ext_scan (rev (list_ascii_of_string path)) []).

Section Program.
Context {W : Type} (E : Externals W).
Implicit Types (st : State W) (th : Thread.t).

(** *** Field updates *)

Definition with_thread (th : Thread.t) st : State W :=
  mkState th (Breakpoints st) (heap st) (inferior st) (logged st).
Definition with_Breakpoints (m : gmap Z ptr) st : State W :=
  mkState (thread st) m (heap st) (inferior st) (logged st).
Definition with_heap (h : gmap ptr Breakpoint.t) st : State W :=
  mkState (thread st) (Breakpoints st) h (inferior st) (logged st).
Definition with_inferior (w : W) st : State W :=
  mkState (thread st) (Breakpoints st) (heap st) w (logged st).
Definition with_logged (l : list error) st : State W :=
  mkState (thread st) (Breakpoints st) (heap st) (inferior st) l.

Definition set_CurrentBreakpoint (bp : option ptr) th : Thread.t :=
  Thread.mk (Thread.ID th) bp (Thread.BreakpointConditionMet th)
    (Thread.BreakpointConditionError th) (Thread.singleStepping th)
    (Thread.running th).
Definition set_BreakpointCondition (met : bool) (err : option error) th
  : Thread.t :=
  Thread.mk (Thread.ID th) (Thread.CurrentBreakpoint th) met err
    (Thread.singleStepping th) (Thread.running th).
Definition set_singleStepping (b : bool) th : Thread.t :=
  Thread.mk (Thread.ID th) (Thread.CurrentBreakpoint th)
    (Thread.BreakpointConditionMet th) (Thread.BreakpointConditionError th)
    b (Thread.running th).
Definition set_running (b : bool) th : Thread.t :=
  Thread.mk (Thread.ID th) (Thread.CurrentBreakpoint th)
    (Thread.BreakpointConditionMet th) (Thread.BreakpointConditionError th)
    (Thread.singleStepping th) b.

(** *** Continue, ContinueWithSignal, StepInstruction: [threadResume] *)

(** Lines 88-89: the [Location] of the breakpoint to write back. *)
Definition restoreLocation (b : Breakpoint.t) : Location.t :=
  let fn := Dwarf_LookupFunc E (Breakpoint.FunctionName b) in
  Location.mk (Breakpoint.Addr b) (Breakpoint.File b) (Breakpoint.Line b) fn.

(** The deferred closure of lines 87-94: write the breakpoint back; a
    failure is logged and goes nowhere else. *)
Definition restoreBreakpoint (bp : ptr) st : State W :=
  match heap st !! bp with
  | None => st
  | Some b =>
      let loc := restoreLocation b in
      let '(nerr, w) :=
        createAndWriteBreakpoint E (inferior st) loc (Breakpoint.Temp b)
          (arch_BreakpointInstruction E) in
      match nerr with
      | Some e => with_logged (logged st ++ [e])%list (with_inferior w st)
      | None => with_inferior w st
      end
  end.

(** Lines 97-101, "Clear state". *)
Definition clearState st : State W :=
  with_thread
    (set_running true
       (set_BreakpointCondition false None
          (set_CurrentBreakpoint None (thread st)))) st.

(** Lines 103-116, the [switch] on the mode, with the deferred reset of
    [singleStepping] and [running] of the single-step case. *)
Definition resumeSwitch (mode : ResumeMode) (sig : Z) st
  : result unit * State W :=
  match mode with
  | ModeStepInstruction =>
      let st1 := with_thread (set_singleStepping true (thread st)) st in
      let '(err, w) := thread_singleStep E (inferior st1) in
      let st2 := with_inferior w st1 in
      (of_err err,
       with_thread
         (set_running false (set_singleStepping false (thread st2))) st2)
  | ModeResume =>
      let '(err, w) := thread_resumeWithSig E (inferior st) sig in
      (of_err err, with_inferior w st)
  | ModeOther _ => (Panic "unknown mode passed to threadResume", st)
  end.

Definition threadResume (mode : ResumeMode) (sig : Z) st
  : result unit * State W :=
  match Thread.CurrentBreakpoint (thread st) with
  | Some bp =>
      match heap st !! bp with
      | None => (Panic "invalid memory address or nil pointer dereference", st)
      | Some b =>
          let '(err, w) := bp_Clear E (inferior st) b in
          match err with
          | Some e => (Err e, with_inferior w st)
          | None =>
              let '(r, st') :=
                resumeSwitch mode sig (clearState (with_inferior w st)) in
              (r, restoreBreakpoint bp st')
          end
      end
  | None => resumeSwitch mode sig (clearState st)
  end.

Definition Continue st := threadResume ModeResume 0 st.
Definition ContinueWithSignal (sig : Z) st := threadResume ModeResume sig st.
Definition StepInstruction st := threadResume ModeStepInstruction 0 st.

(** *** Location *)

Definition Location_ st : result Location.t :=
  match thread_PC E (inferior st) with
  | inl e => Err e
  | inr pc =>
      let '(f, l, fn) := Dwarf_PCToLine E pc in
      Ok (Location.mk pc f l fn)
  end.

(** *** SetPC *)

Definition SetPC (pc : Z) st : result unit * State W :=
  match thread_Registers E (inferior st) with
  | inl e => (Err e, st)
  | inr regs =>
      let '(err, w) := regs_SetPC E (inferior st) regs pc in
      (of_err err, with_inferior w st)
  end.

(** *** The goroutine of the thread: getGVariable, newGVariable, GetG *)

Definition newGVariable (gaddr : Z) (deref : bool) : result Variable_.t :=
  match dbp_findType E "runtime.g" with
  | inl e => Err e
  | inr typ =>
      if deref
      then Ok (Variable_.mk "" gaddr (PtrType (arch_PtrSize E) typ))
      else Ok (Variable_.mk "runtime.curg" gaddr typ)
  end.

Definition getGVariable st : result Variable_.t :=
  match thread_Registers E (inferior st) with
  | inl e => Err e
  | inr regs =>
      if arch_GStructOffset E =? 0
      then Err (errorString "g struct offset not initialized")
      else
        match thread_readMemory E (inferior st)
                (add64 (TLS regs) (arch_GStructOffset E)) (arch_PtrSize E)
        with
        | inl e => Err e
        | inr gaddrbs =>
            match LittleEndian_Uint64 gaddrbs with
            | None => Panic "index out of range"
            | Some gaddr =>
                let needsDeref := String.eqb (GOOS E) "windows" in
                newGVariable gaddr needsDeref
            end
        end
  end.

Definition GetG st : result G.t :=
  match getGVariable st with
  | Err e => Err e
  | Panic m => Panic m
  | Ok gaddr =>
      match parseG E (inferior st) gaddr with
      | inl e => Err e
      | inr g => Ok (G.mk (G.ID g) (G.DeferPC g) (Some (Thread.ID (thread st))))
      end
  end.

(** *** Breakpoint hits: SetCurrentBreakpoint and the derived predicates *)

Definition onTriggeredBreakpoint st : bool :=
  match Thread.CurrentBreakpoint (thread st) with
  | Some _ => Thread.BreakpointConditionMet (thread st)
  | None => false
  end.

Definition onTriggeredTempBreakpoint st : bool :=
  onTriggeredBreakpoint st &&
  match Thread.CurrentBreakpoint (thread st) with
  | Some bp =>
      match heap st !! bp with
      | Some b => Breakpoint.Temp b
      | None => false
      end
  | None => false
  end.

Definition onRuntimeBreakpoint st : bool :=
  match Location_ st with
  | Ok loc =>
      match Location.Fn loc with
      | Some fn => String.eqb (Name fn) "runtime.breakpoint"
      | None => false
      end
  | _ => false
  end.

(** [thread.CurrentBreakpoint.HitCount[goid]++]: a missing key reads as
    0; writing to a nil map panics. *)
Definition incHitCount (goid : Z) st : result unit * State W :=
  match Thread.CurrentBreakpoint (thread st) with
  | None => (Panic "invalid memory address or nil pointer dereference", st)
  | Some bp =>
      match heap st !! bp with
      | None =>
          (Panic "invalid memory address or nil pointer dereference", st)
      | Some b =>
          match Breakpoint.HitCount b with
          | None => (Panic "assignment to entry in nil map", st)
          | Some m =>
              let m' := <[goid := add64 (default 0 (m !! goid)) 1]> m in
              let b' :=
                Breakpoint.mk (Breakpoint.FunctionName b) (Breakpoint.File b)
                  (Breakpoint.Line b) (Breakpoint.Addr b) (Breakpoint.Temp b)
                  (Some m') (Breakpoint.TotalHitCount b) in
              (Ok tt, with_heap (<[bp := b']> (heap st)) st)
          end
      end
  end.

(** [thread.CurrentBreakpoint.TotalHitCount++]. *)
Definition incTotalHitCount st : result unit * State W :=
  match Thread.CurrentBreakpoint (thread st) with
  | None => (Panic "invalid memory address or nil pointer dereference", st)
  | Some bp =>
      match heap st !! bp with
      | None =>
          (Panic "invalid memory address or nil pointer dereference", st)
      | Some b =>
          let b' :=
            Breakpoint.mk (Breakpoint.FunctionName b) (Breakpoint.File b)
              (Breakpoint.Line b) (Breakpoint.Addr b) (Breakpoint.Temp b)
              (Breakpoint.HitCount b)
              (add64 (Breakpoint.TotalHitCount b) 1) in
          (Ok tt, with_heap (<[bp := b']> (heap st)) st)
      end
  end.

Definition SetCurrentBreakpoint st : result unit * State W :=
  match thread_PC E (inferior st) with
  | inl e => (Err e, st)
  | inr pc =>
      match Breakpoints st !! sub64 pc (u64 (arch_BreakpointSize E)) with
      | None => (Ok tt, st)
      | Some bp =>
          let st1 :=
            with_thread (set_CurrentBreakpoint (Some bp) (thread st)) st in
          match heap st1 !! bp with
          | None =>
              (Panic "invalid memory address or nil pointer dereference",
               st1)
          | Some b =>
              match SetPC (Breakpoint.Addr b) st1 with
              | (Ok _, st2) =>
                  let '(met, cerr) :=
                    bp_checkCondition E (inferior st2) b in
                  let st3 :=
                    with_thread
                      (set_BreakpointCondition met cerr (thread st2)) st2 in
                  if onTriggeredBreakpoint st3 then
                    match GetG st3 with
                    | Ok g =>
                        match incHitCount (G.ID g) st3 with
                        | (Ok _, st4) => incTotalHitCount st4
                        | r => r
                        end
                    | Err _ => incTotalHitCount st3
                    | Panic m => (Panic m, st3)
                    end
                  else (Ok tt, st3)
              | r => r
              end
          end
      end
  end.

(** *** Step-over: the temporary breakpoints of [next] *)

(** Modelled from the spec: [Process.SetTempBreakpoint], the
    "temp-breakpoint installer (returns [BreakpointExists] when already
    present)" over the "address-keyed breakpoint table": an address that
    has an entry is refused; otherwise the trap is written and a new
    temporary breakpoint is entered at the address. *)
Definition SetTempBreakpoint (addr : Z) st : result ptr * State W :=
  match Breakpoints st !! addr with
  | Some _ => (Err (BreakpointExistsError addr), st)
  | None =>
      let '(err, w) := writeSoftwareBreakpoint E (inferior st) addr in
      match err with
      | Some e => (Err e, with_inferior w st)
      | None =>
          let '(f, l, fn) := Dwarf_PCToLine E addr in
          let b :=
            Breakpoint.mk (match fn with Some fn => Name fn | None => "" end)
              f l addr true (Some ∅) 0 in
          let bp := fresh (dom (heap st)) in
          (Ok bp,
           with_Breakpoints (<[addr := bp]> (Breakpoints st))
             (with_heap (<[bp := b]> (heap st)) (with_inferior w st)))
      end
  end.

Fixpoint setNextTempBreakpoints (curpc : Z) (pcs : list Z) st
  : result unit * State W :=
  match pcs with
  | [] => (Ok tt, st)
  | pc :: rest =>
      if (pc =? curpc) || (pc =? sub64 curpc 1)
      then setNextTempBreakpoints curpc rest st
      else
        match SetTempBreakpoint pc st with
        | (Ok _, st') => setNextTempBreakpoints curpc rest st'
        | (Err e, st') =>
            if isBreakpointExistsError e
            then setNextTempBreakpoints curpc rest st'
            else (Err e, st')
        | (Panic m, st') => (Panic m, st')
        end
  end.

(** Modelled from the spec: [Line.AllPCsBetween], the "ordered PC
    sequence between two addresses for a file", both addresses included
    (so that the call of [next], with [fde.End()-1], collects the PCs
    "within [frame.begin, frame.end)"). *)
Definition AllPCsBetween (begin end_ : Z) (filename : string) : list Z :=
  map fst
    (List.filter
       (fun e : Z * string =>
          String.eqb (snd e) filename
          && (begin <=? fst e) && (fst e <=? end_))
       (Line_table E)).

(** Line 178, the candidates of [next]. *)
Definition next_pcs (curloc : Location.t) (fde : FDE.t) : list Z :=
  AllPCsBetween (FDE.Begin fde) (sub64 (FDE.End fde) 1)
    (Location.File curloc).

(** Line 234, the candidates of [cnext]. *)
Definition cnext_pcs (fde : FDE.t) (file : string) : list Z :=
  AllPCsBetween (FDE.Begin fde) (FDE.End fde) file.

Definition cnext (curpc : Z) (fde : FDE.t) (file : string) st
  : result unit * State W :=
  let pcs := cnext_pcs fde file in
  match thread_ReturnAddress E (inferior st) with
  | inl e => (Err e, st)
  | inr ret => setNextTempBreakpoints curpc (pcs ++ [ret]) st
  end.

(** The loop of lines 186-200 up to its [break]: [lineno] is incremented
    until [LineToPC] succeeds.  [None]: the loop is still running when
    the fuel is spent.  [lineno] is a Go [int]: [lineno++] wraps around
    at the top of the [int] range and goes on from the bottom. *)
Fixpoint scanDeferLine (fuel : nat) (f : string) (lineno : Z) : option Z :=
  match fuel with
  | O => None
  | S fuel' =>
      let lineno := wrap_int (lineno + 1) in
      match Dwarf_LineToPC E f lineno with
      | inr dpc => Some dpc
      | inl _ => scanDeferLine fuel' f lineno
      end
  end.

(** Lines 203-227 of [next]. *)
Definition nextFromReturnAddress (curloc : Location.t) (fde : FDE.t)
    (pcs : list Z) st : result unit * State W :=
  match thread_ReturnAddress E (inferior st) with
  | inl e => (Err e, st)
  | inr ret =>
      let covered := existsb (FDE.Cover fde) pcs in
      let goexit :=
        negb covered &&
        match Dwarf_PCToFunc E ret with
        | Some fn => String.eqb (Name fn) "runtime.goexit"
        | None => false
        end in
      if goexit then
        match GetG st with
        | Ok g => (Err (GoroutineExitingError (G.ID g)), st)
        | Err e => (Err e, st)
        | Panic m => (Panic m, st)
        end
      else setNextTempBreakpoints (Location.PC curloc) (pcs ++ [ret]) st
  end.

(** [delete(thread.dbp.Breakpoints, g.DeferPC)], the deferred call of
    line 194. *)
Definition deleteBreakpoint (addr : Z) st : State W :=
  with_Breakpoints (delete addr (Breakpoints st)) st.

(** Lines 185-198, the body of [if g.DeferPC != 0] up to its [break]:
    the scan, the placeholder entry at the deferred call and the
    temporary breakpoint at the line found.  The deferred [delete] that
    line 194 registers is run by [next], when it returns. *)
Definition setDeferBreakpoint (fuel : nat) (g : G.t) st
  : option (result unit * State W) :=
  let '(f, lineno, _) := Dwarf_PCToLine E (G.DeferPC g) in
  match scanDeferLine fuel f lineno with
  | None => None
  | Some dpc =>
      (* thread.dbp.Breakpoints[g.DeferPC] = new(Breakpoint) *)
      let fake := fresh (dom (heap st)) in
      let st1 :=
        with_Breakpoints (<[G.DeferPC g := fake]> (Breakpoints st))
          (with_heap (<[fake := Breakpoint.zero]> (heap st)) st) in
      match SetTempBreakpoint dpc st1 with
      | (Ok _, st2) => Some (Ok tt, st2)
      | (Err e, st2) => Some (Err e, st2)
      | (Panic m, st2) => Some (Panic m, st2)
      end
  end.

Definition next (fuel : nat) (curloc : Location.t) (fde : FDE.t) st
  : option (result unit * State W) :=
  let pcs := next_pcs curloc fde in
  match GetG st with
  | Err e => Some (Err e, st)
  | Panic m => Some (Panic m, st)
  | Ok g =>
      if G.DeferPC g =? 0
      then Some (nextFromReturnAddress curloc fde pcs st)
      else
        match setDeferBreakpoint fuel g st with
        | None => None
        | Some (r, st2) =>
            let '(r', st3) :=
              match r with
              | Ok _ => nextFromReturnAddress curloc fde pcs st2
              | Err e => (Err e, st2)
              | Panic m => (Panic m, st2)
              end in
            Some (r', deleteBreakpoint (G.DeferPC g) st3)
        end
  end.

Definition setNextBreakpoints (fuel : nat) st
  : option (result unit * State W) :=
  if thread_blocked E (inferior st) then Some (Err ThreadBlockedError, st)
  else
    match Location_ st with
    | Err e => Some (Err e, st)
    | Panic m => Some (Panic m, st)
    | Ok loc =>
        match Frame_FDEForPC E (Location.PC loc) with
        | inl e => Some (Err e, st)
        | inr fde =>
            if String.eqb (filepath_Ext (Location.File loc)) ".go"
            then next fuel loc fde st
            else Some (cnext (Location.PC loc) fde (Location.File loc) st)
        end
    end.
End Program.

(** ** A small traced process

    A concrete instance of the external operations, for running the
    definitions: the state of the traced process is the value of its PC
    register; the register file always reads and writes; memory at the
    goroutine slot holds a fixed address; the trap writer succeeds. *)
Module Toy.
Record config : Type := mkConfig {
  table : list (Z * string);
  lineToPC : string -> Z -> error + Z;
  pcToLine : Z -> string * Z * option Func;
  pcToFunc : Z -> option Func;
  ret : error + Z;
  g : error + G.t;
  cond : bool * option error;
  blocked : bool;
  clearErr : option error;
  restoreErr : option error;
  stepErr : option error;
  fdeFor : Z -> error + FDE.t
}.

Definition externals (c : config) : Externals Z := {|
  arch_BreakpointSize := 1;
  arch_BreakpointInstruction := [204];
  arch_GStructOffset := 8;
  arch_PtrSize := 8;
  GOOS := "linux";
  Dwarf_LookupFunc := fun name => Some {| Name := name |};
  Dwarf_PCToLine := pcToLine c;
  Dwarf_LineToPC := lineToPC c;
  Dwarf_PCToFunc := pcToFunc c;
  Frame_FDEForPC := fdeFor c;
  Line_table := table c;
  dbp_findType := fun name => inr (NamedType name);
  thread_PC := fun w => inr w;
  thread_Registers := fun _ => inr {| TLS := 4096 |};
  regs_SetPC := fun _ _ pc => (None, pc);
  thread_readMemory := fun _ _ _ => inr [16; 32; 0; 0; 0; 0; 0; 0];
  thread_singleStep := fun w => (stepErr c, w + 1);
  thread_resumeWithSig := fun w _ => (stepErr c, w + 16);
  thread_blocked := fun _ => blocked c;
  thread_ReturnAddress := fun _ => ret c;
  bp_Clear := fun w _ => (clearErr c, w);
  createAndWriteBreakpoint := fun w _ _ _ => (restoreErr c, w);
  writeSoftwareBreakpoint := fun w _ => (None, w);
  bp_checkCondition := fun _ _ => cond c;
  parseG := fun _ _ => g c
|}.

Definition noLine : string -> Z -> error + Z :=
  fun _ _ => inl (errorString "no code at line").

(** A quiet program: no line table, no deferred call, condition true. *)
Definition quiet : config := {|
  table := [];
  lineToPC := noLine;
  pcToLine := fun _ => ("main.go", 10, Some {| Name := "main.main" |});
  pcToFunc := fun _ => Some {| Name := "main.main" |};
  ret := inr 768;
  g := inr (G.mk 7 0 None);
  cond := (true, None);
  blocked := false;
  clearErr := None;
  restoreErr := None;
  stepErr := None;
  fdeFor := fun _ => inr (FDE.mk 256 512)
|}.

Definition thread0 : Thread.t := Thread.mk 1 None false None false false.

(** A user breakpoint at address [a], allocated at pointer 1. *)
Definition userBreakpoint (a : Z) : Breakpoint.t :=
  Breakpoint.mk "main.main" "main.go" 10 a false (Some ∅) 0.

(** No breakpoints; the thread stopped at [pc]. *)
Definition empty (pc : Z) : State Z := mkState thread0 ∅ ∅ pc [].

(** One user breakpoint at [a]; the thread stopped at [pc]. *)
Definition stoppedAt (a pc : Z) : State Z :=
  mkState thread0 {[ a := 1%positive ]} {[ 1%positive := userBreakpoint a ]}
    pc [].

(** The thread stopped on the user breakpoint at [a], which is its
    current breakpoint. *)
Definition onBreakpoint (a : Z) : State Z :=
  mkState (Thread.mk 1 (Some 1%positive) true None false false)
    {[ a := 1%positive ]} {[ 1%positive := userBreakpoint a ]} a [].

(** The condition evaluates to [true] and reports an error with it. *)
Definition condError : config := {|
  table := []; lineToPC := noLine; pcToLine := pcToLine quiet;
  pcToFunc := pcToFunc quiet; ret := ret quiet; g := g quiet;
  cond := (true, Some (errorString "error evaluating expression"));
  blocked := false; clearErr := None; restoreErr := None; stepErr := None;
  fdeFor := fdeFor quiet
|}.

(** The goroutine cannot be resolved. *)
Definition noGoroutine : config := {|
  table := []; lineToPC := noLine; pcToLine := pcToLine quiet;
  pcToFunc := pcToFunc quiet; ret := ret quiet;
  g := inl (errorString "could not parse g");
  cond := (true, None);
  blocked := false; clearErr := None; restoreErr := None; stepErr := None;
  fdeFor := fdeFor quiet
|}.

(** The thread is parked in the scheduler. *)
Definition parked : config := {|
  table := [(272, "main.go")]; lineToPC := noLine;
  pcToLine := pcToLine quiet;
  pcToFunc := pcToFunc quiet; ret := ret quiet; g := g quiet;
  cond := (true, None);
  blocked := true; clearErr := None; restoreErr := None; stepErr := None;
  fdeFor := fdeFor quiet
|}.

(** Writing a breakpoint back fails; the step itself succeeds. *)
Definition restoreFails : config := {|
  table := []; lineToPC := noLine; pcToLine := pcToLine quiet;
  pcToFunc := pcToFunc quiet; ret := ret quiet; g := g quiet;
  cond := (true, None);
  blocked := false; clearErr := None;
  restoreErr := Some (errorString "could not write breakpoint");
  stepErr := None;
  fdeFor := fdeFor quiet
|}.

(** A goroutine on its way out: its frame [[256, 512)] has no line-table
    PC, its return address 768 is in [runtime.goexit], and it has a
    deferred call at 1280, on line 10 of main.go; line 11 has no code,
    line 12 starts at 1296. *)
Definition exiting : config := {|
  table := [];
  lineToPC := fun f l =>
    if String.eqb f "main.go" && (l =? 12) then inr 1296
    else inl (errorString "no code at line");
  pcToLine := fun pc =>
    if pc =? 1280 then ("main.go", 10, Some {| Name := "main.cleanup" |})
    else ("main.go", 20, Some {| Name := "main.main" |});
  pcToFunc := fun pc =>
    if pc =? 768 then Some {| Name := "runtime.goexit" |}
    else Some {| Name := "main.main" |};
  ret := inr 768;
  g := inr (G.mk 7 1280 None);
  cond := (true, None);
  blocked := false; clearErr := None; restoreErr := None; stepErr := None;
  fdeFor := fun _ => inr (FDE.mk 256 512)
|}.

(** Code without Go debug information: lib.c has line-table PCs at 272
    and 304 inside the frame [[256, 512)] and at 512, where the next
    function starts. *)
Definition native : config := {|
  table := [(272, "lib.c"); (304, "lib.c"); (512, "lib.c")];
  lineToPC := noLine;
  pcToLine := fun _ => ("lib.c", 3, Some {| Name := "helper" |});
  pcToFunc := fun _ => Some {| Name := "helper" |};
  ret := inr 768;
  g := inr (G.mk 7 0 None);
  cond := (true, None);
  blocked := false; clearErr := None; restoreErr := None; stepErr := None;
  fdeFor := fun _ => inr (FDE.mk 256 512)
|}.

(** Scenario B of the specification: frame [[0x100, 0x200)] with line
    PCs 0x110, 0x130, 0x150, return address 0x300. *)
Definition scenarioB : config := {|
  table := [(272, "main.go"); (304, "main.go"); (336, "main.go")];
  lineToPC := noLine;
  pcToLine := fun _ => ("main.go", 10, Some {| Name := "main.main" |});
  pcToFunc := fun _ => Some {| Name := "main.main" |};
  ret := inr 768;
  g := inr (G.mk 7 0 None);
  cond := (true, None);
  blocked := false; clearErr := None; restoreErr := None; stepErr := None;
  fdeFor := fun _ => inr (FDE.mk 256 512)
|}.
End Toy.

(** ** Halt, Stopped and onNextGoroutine

    The two primitives of the operating-system thread file that [Halt]
    goes through. *)
Record HaltExternals (W : Type) : Type := {
  thread_stopped : W -> bool;
  thread_halt : W -> option error * W
}.
Arguments thread_stopped {W}.
Arguments thread_halt {W}.

Section Halting.
Context {W : Type} (H : HaltExternals W).
Implicit Types (st : State W).

Definition Stopped st : bool := thread_stopped H (inferior st).

(** [Halt]: nothing is done for a thread that is stopped already; the
    deferred closure clears [running] when the error returned is [nil]. *)
Definition Halt st : result unit * State W :=
  let '(err, st1) :=
    if Stopped st then (None, st)
    else
      let '(err, w) := thread_halt H (inferior st) in
      (err, with_inferior w st) in
  (of_err err,
   match err with
   | None => with_thread (set_running false (thread st1)) st1
   | Some _ => st1
   end).
End Halting.

Section NextGoroutine.
Context {W : Type} (E : Externals W).
Implicit Types (st : State W).

(** [onNextGoroutine], lines 410-417.  Go leaves the order in which
    [range] visits a map unspecified: [order] is the sequence of entries
    that the loop visits, some arrangement of the entries of the table.
    The condition of the first temporary breakpoint met is the result;
    [Ok (false, None)] when the loop runs out. *)
Fixpoint onNextGoroutine (order : list (Z * ptr)) st
  : result (bool * option error) :=
  match order with
  | [] => Ok (false, None)
  | (_, bp) :: rest =>
      match heap st !! bp with
      | None => Panic "invalid memory address or nil pointer dereference"
      | Some b =>
          if Breakpoint.Temp b
          then Ok (bp_checkCondition E (inferior st) b)
          else onNextGoroutine rest st
      end
  end.
End NextGoroutine.

(** The table is keyed by address at [a]: an entry at [a] points to a
    breakpoint object whose [Addr] is [a]. *)
Definition keyed_at {W : Type} (a : Z) (st : State W) : Prop :=
  forall p, Breakpoints st !! a = Some p ->
    exists b, heap st !! p = Some b /\ Breakpoint.Addr b = a.

(** The trap writer reports no [BreakpointExistsError] of its own: that
    error is the installer's, for an address that has an entry. *)
Definition writer_errors_foreign {W : Type} (E : Externals W) : Prop :=
  forall w a e,
    fst (writeSoftwareBreakpoint E w a) = Some e ->
    isBreakpointExistsError e = false.

(** More of the small traced process. *)
Module ToyMore.
(** A thread that runs until it is halted; halting works. *)
Definition halts : HaltExternals Z := {|
  thread_stopped := fun w => w =? 0;
  thread_halt := fun _ => (None, 0)
|}.

(** Halting fails. *)
Definition haltFails : HaltExternals Z := {|
  thread_stopped := fun w => w =? 0;
  thread_halt := fun w => (Some (errorString "no such process"), w)
|}.

Definition runningThread : Thread.t :=
  Thread.mk 1 None false None false true.

Definition running (pc : Z) : State Z := mkState runningThread ∅ ∅ pc [].

(** The architecture has no goroutine offset yet. *)
Definition bootstrapping : Externals Z := {|
  arch_BreakpointSize := 1;
  arch_BreakpointInstruction := [204];
  arch_GStructOffset := 0;
  arch_PtrSize := 8;
  GOOS := "linux";
  Dwarf_LookupFunc := fun name => Some {| Name := name |};
  Dwarf_PCToLine := Toy.pcToLine Toy.quiet;
  Dwarf_LineToPC := Toy.noLine;
  Dwarf_PCToFunc := Toy.pcToFunc Toy.quiet;
  Frame_FDEForPC := Toy.fdeFor Toy.quiet;
  Line_table := [];
  dbp_findType := fun name => inr (NamedType name);
  thread_PC := fun w => inr w;
  thread_Registers := fun _ => inr {| TLS := 4096 |};
  regs_SetPC := fun _ _ pc => (None, pc);
  thread_readMemory := fun _ _ _ => inr [16; 32; 0; 0; 0; 0; 0; 0];
  thread_singleStep := fun w => (None, w + 1);
  thread_resumeWithSig := fun w _ => (None, w + 16);
  thread_blocked := fun _ => false;
  thread_ReturnAddress := fun _ => inr 768;
  bp_Clear := fun w _ => (None, w);
  createAndWriteBreakpoint := fun w _ _ _ => (None, w);
  writeSoftwareBreakpoint := fun w _ => (None, w);
  bp_checkCondition := fun _ _ => (true, None);
  parseG := fun _ _ => inr (G.mk 7 0 None)
|}.

(** Pointers are four bytes wide: the goroutine slot reads as four bytes.
    The register file cannot be written. *)
Definition narrow : Externals Z := {|
  arch_BreakpointSize := 1;
  arch_BreakpointInstruction := [204];
  arch_GStructOffset := 8;
  arch_PtrSize := 4;
  GOOS := "linux";
  Dwarf_LookupFunc := fun name => Some {| Name := name |};
  Dwarf_PCToLine := Toy.pcToLine Toy.quiet;
  Dwarf_LineToPC := Toy.noLine;
  Dwarf_PCToFunc := Toy.pcToFunc Toy.quiet;
  Frame_FDEForPC := Toy.fdeFor Toy.quiet;
  Line_table := [];
  dbp_findType := fun name => inr (NamedType name);
  thread_PC := fun w => inr w;
  thread_Registers := fun _ => inr {| TLS := 4096 |};
  regs_SetPC := fun w _ _ => (Some (errorString "input/output error"), w);
  thread_readMemory := fun _ _ _ => inr [16; 32; 0; 0];
  thread_singleStep := fun w => (None, w + 1);
  thread_resumeWithSig := fun w _ => (None, w + 16);
  thread_blocked := fun _ => false;
  thread_ReturnAddress := fun _ => inr 768;
  bp_Clear := fun w _ => (Some (errorString "could not clear breakpoint"), w);
  createAndWriteBreakpoint := fun w _ _ _ => (None, w);
  writeSoftwareBreakpoint := fun w _ => (None, w);
  bp_checkCondition := fun _ _ => (true, None);
  parseG := fun _ _ => inr (G.mk 7 0 None)
|}.

(** A user breakpoint at 272 and a temporary one at 336. *)
Definition stepping : State Z :=
  mkState Toy.thread0
    {[ 272 := 1%positive; 336 := 2%positive ]}
    {[ 1%positive := Toy.userBreakpoint 272;
       2%positive := Breakpoint.mk "main.main" "main.go" 12 336 true
                       (Some ∅) 0 ]}
    304 [].

(** The deferred call of the goroutine that is exiting has a user
    breakpoint on its first line, at 1296, and one on its entry, 1280. *)
Definition deferBreakpoints : State Z :=
  mkState Toy.thread0
    {[ 1280 := 1%positive; 1296 := 2%positive ]}
    {[ 1%positive := Toy.userBreakpoint 1280;
       2%positive := Toy.userBreakpoint 1296 ]}
    300 [].

(** A user breakpoint on the entry of the deferred call only. *)
Definition deferEntryBreakpoint : State Z :=
  mkState Toy.thread0 {[ 1280 := 1%positive ]}
    {[ 1%positive := Toy.userBreakpoint 1280 ]} 300 [].

(** The goroutine that is exiting, in a file where the only line that
    maps to a PC is line 10, the line of the deferred call itself. *)
Definition onlyDeferLine : Toy.config := {|
  Toy.table := [];
  Toy.lineToPC := fun f l =>
    if String.eqb f "main.go" && (l =? 10) then inr 1280
    else inl (errorString "no code at line");
  Toy.pcToLine := Toy.pcToLine Toy.exiting;
  Toy.pcToFunc := Toy.pcToFunc Toy.exiting; Toy.ret := Toy.ret Toy.exiting;
  Toy.g := Toy.g Toy.exiting;
  Toy.cond := (true, None);
  Toy.blocked := false; Toy.clearErr := None; Toy.restoreErr := None;
  Toy.stepErr := None;
  Toy.fdeFor := Toy.fdeFor Toy.exiting
|}.

(** No frame descriptor covers the PC. *)
Definition noFrame : Toy.config := {|
  Toy.table := []; Toy.lineToPC := Toy.noLine;
  Toy.pcToLine := Toy.pcToLine Toy.quiet;
  Toy.pcToFunc := Toy.pcToFunc Toy.quiet; Toy.ret := Toy.ret Toy.quiet;
  Toy.g := Toy.g Toy.quiet;
  Toy.cond := (true, None);
  Toy.blocked := false; Toy.clearErr := None; Toy.restoreErr := None;
  Toy.stepErr := None;
  Toy.fdeFor := fun _ => inl (errorString "could not find FDE for PC")
|}.

(** The table holds a [new(Breakpoint)] at 1280 and the thread has just
    run over it. *)
Definition onPlaceholder : State Z :=
  mkState Toy.thread0 {[ 1280 := 1%positive ]}
    {[ 1%positive := Breakpoint.mk "" "" 0 1280 false None 0 ]} 1281 [].

(** The thread has just run over the temporary breakpoint at 336. *)
Definition onTemporary : State Z :=
  mkState Toy.thread0
    {[ 272 := 1%positive; 336 := 2%positive ]}
    {[ 1%positive := Toy.userBreakpoint 272;
       2%positive := Breakpoint.mk "main.main" "main.go" 12 336 true
                       (Some ∅) 0 ]}
    337 [].

(** Scenario B with a deferred call: the goroutine has a deferred call
    at 1280, on line 10 of main.go; line 11 has no code and line 12
    starts at 1296.  The return address is in main.main. *)
Definition deferring : Toy.config := {|
  Toy.table := [(272, "main.go"); (304, "main.go"); (336, "main.go")];
  Toy.lineToPC := Toy.lineToPC Toy.exiting;
  Toy.pcToLine := Toy.pcToLine Toy.exiting;
  Toy.pcToFunc := fun _ => Some {| Name := "main.main" |};
  Toy.ret := inr 768;
  Toy.g := inr (G.mk 7 1280 None);
  Toy.cond := (true, None);
  Toy.blocked := false; Toy.clearErr := None; Toy.restoreErr := None;
  Toy.stepErr := None;
  Toy.fdeFor := fun _ => inr (FDE.mk 256 512)
|}.

(** A user breakpoint on the first line of the deferred call, at 1296;
    the thread at 304. *)
Definition deferLineBreakpoint : State Z :=
  mkState Toy.thread0 {[ 1296 := 1%positive ]}
    {[ 1%positive := Toy.userBreakpoint 1296 ]} 304 [].

(** Scenario B in the outermost frame of a goroutine: the return address
    768 is in [runtime.goexit]. *)
Definition lastFrame : Toy.config := {|
  Toy.table := [(272, "main.go"); (304, "main.go"); (336, "main.go")];
  Toy.lineToPC := Toy.noLine;
  Toy.pcToLine := fun _ => ("main.go", 10, Some {| Name := "main.main" |});
  Toy.pcToFunc := fun pc =>
    if pc =? 768 then Some {| Name := "runtime.goexit" |}
    else Some {| Name := "main.main" |};
  Toy.ret := inr 768;
  Toy.g := inr (G.mk 7 0 None);
  Toy.cond := (true, None);
  Toy.blocked := false; Toy.clearErr := None; Toy.restoreErr := None;
  Toy.stepErr := None;
  Toy.fdeFor := fun _ => inr (FDE.mk 256 512)
|}.

(** Scenario B on a process where the trap cannot be written at [bad]. *)
Definition writeFailsAt (bad : Z) : Externals Z := {|
  arch_BreakpointSize := 1;
  arch_BreakpointInstruction := [204];
  arch_GStructOffset := 8;
  arch_PtrSize := 8;
  GOOS := "linux";
  Dwarf_LookupFunc := fun name => Some {| Name := name |};
  Dwarf_PCToLine := Toy.pcToLine Toy.scenarioB;
  Dwarf_LineToPC := Toy.noLine;
  Dwarf_PCToFunc := Toy.pcToFunc Toy.scenarioB;
  Frame_FDEForPC := Toy.fdeFor Toy.scenarioB;
  Line_table := Toy.table Toy.scenarioB;
  dbp_findType := fun name => inr (NamedType name);
  thread_PC := fun w => inr w;
  thread_Registers := fun _ => inr {| TLS := 4096 |};
  regs_SetPC := fun _ _ pc => (None, pc);
  thread_readMemory := fun _ _ _ => inr [16; 32; 0; 0; 0; 0; 0; 0];
  thread_singleStep := fun w => (None, w + 1);
  thread_resumeWithSig := fun w _ => (None, w + 16);
  thread_blocked := fun _ => false;
  thread_ReturnAddress := fun _ => inr 768;
  bp_Clear := fun w _ => (None, w);
  createAndWriteBreakpoint := fun w _ _ _ => (None, w);
  writeSoftwareBreakpoint := fun w a =>
    if a =? bad then (Some (errorString "input/output error"), w)
    else (None, w);
  bp_checkCondition := fun _ _ => (true, None);
  parseG := fun _ _ => inr (G.mk 7 0 None)
|}.
End ToyMore.

(** ** A traced process that keeps a journal

    The state of the traced process is the sequence of what was done to
    it, oldest first: which trap was cleared, which step primitive ran,
    and which breakpoint was written where. *)
Module ToyTrace.
Inductive event : Type :=
  | Cleared (addr : Z)
  | Stepped
  | Resumed (sig : Z)
  | Written (loc : Location.t) (temp : bool) (instr : list Z).

Definition externals (restoreErr : option error)
  : Externals (list event) := {|
  arch_BreakpointSize := 1;
  arch_BreakpointInstruction := [204];
  arch_GStructOffset := 8;
  arch_PtrSize := 8;
  GOOS := "linux";
  Dwarf_LookupFunc := fun name => Some {| Name := name |};
  Dwarf_PCToLine := Toy.pcToLine Toy.quiet;
  Dwarf_LineToPC := Toy.noLine;
  Dwarf_PCToFunc := Toy.pcToFunc Toy.quiet;
  Frame_FDEForPC := Toy.fdeFor Toy.quiet;
  Line_table := [];
  dbp_findType := fun name => inr (NamedType name);
  thread_PC := fun _ => inr 256;
  thread_Registers := fun _ => inr {| TLS := 4096 |};
  regs_SetPC := fun w _ _ => (None, w);
  thread_readMemory := fun _ _ _ => inr [16; 32; 0; 0; 0; 0; 0; 0];
  thread_singleStep := fun w => (None, w ++ [Stepped])%list;
  thread_resumeWithSig := fun w sig => (None, w ++ [Resumed sig])%list;
  thread_blocked := fun _ => false;
  thread_ReturnAddress := fun _ => inr 768;
  bp_Clear := fun w b => (None, w ++ [Cleared (Breakpoint.Addr b)])%list;
  createAndWriteBreakpoint := fun w loc temp instr =>
    (restoreErr, w ++ [Written loc temp instr])%list;
  writeSoftwareBreakpoint := fun w _ => (None, w);
  bp_checkCondition := fun _ _ => (true, None);
  parseG := fun _ _ => inr (G.mk 7 0 None)
|}.

(** The thread stopped on the user breakpoint at [a], which is its
    current breakpoint; nothing has been done to the process yet. *)
Definition onBreakpoint (a : Z) : State (list event) :=
  mkState (Thread.mk 1 (Some 1%positive) true None false false)
    {[ a := 1%positive ]} {[ 1%positive := Toy.userBreakpoint a ]} [] [].
End ToyTrace.

(** * Properties *)

Lemma u64_range (z : Z) : 0 <= u64 z < 2 ^ 64.
Proof. unfold u64. apply Z.mod_pos_bound. lia. Qed.

Lemma u64_small (z : Z) : 0 <= z < 2 ^ 64 -> u64 z = z.
Proof. intros H. unfold u64. apply Z.mod_small. exact H. Qed.

(** Subtracting the trap size undoes adding it, with the wrap-around of
    [uint64]. *)
Lemma sub64_add64 (a s : Z) : 0 <= a < 2 ^ 64 -> sub64 (add64 a s) s = a.
Proof.
  intros Ha. unfold sub64, add64, u64.
  rewrite Zminus_mod_idemp_l.
  replace (a + s - s) with a by lia.
  apply Z.mod_small. exact Ha.
Qed.

Lemma wrap_int_range (z : Z) : - 2 ^ 63 <= wrap_int z < 2 ^ 63.
Proof.
  unfold wrap_int.
  pose proof (Z.mod_pos_bound (z + 2 ^ 63) (2 ^ 64) ltac:(lia)). lia.
Qed.

Lemma wrap_int_small (z : Z) : - 2 ^ 63 <= z < 2 ^ 63 -> wrap_int z = z.
Proof.
  intros Hz. unfold wrap_int. rewrite Z.mod_small by lia. lia.
Qed.

(** Wrapping an intermediate result does not change the wrapped sum. *)
Lemma wrap_int_add_l (a b : Z) : wrap_int (wrap_int a + b) = wrap_int (a + b).
Proof.
  unfold wrap_int. f_equal.
  replace ((a + 2 ^ 63) mod 2 ^ 64 - 2 ^ 63 + b + 2 ^ 63)
    with ((a + 2 ^ 63) mod 2 ^ 64 + b) by lia.
  rewrite Zplus_mod_idemp_l. f_equal. lia.
Qed.

(** Counting up from any line, with wrap-around, every line number of
    the range of [int] is reached within [2^64] increments. *)
Lemma wrap_int_reach (lineno n : Z) :
  - 2 ^ 63 <= n < 2 ^ 63 ->
  exists k, 1 <= k <= 2 ^ 64 /\ wrap_int (lineno + k) = n.
Proof.
  intros Hn.
  pose proof (Z.mod_pos_bound (n - lineno) (2 ^ 64) ltac:(lia)) as Hr.
  pose proof (Z.div_mod (n - lineno) (2 ^ 64) ltac:(lia)) as Hdiv.
  set (q := (n - lineno) / 2 ^ 64) in *.
  set (r := (n - lineno) mod 2 ^ 64) in *.
  destruct (decide (r = 0)) as [Hzero|Hpos].
  - exists (2 ^ 64). split; [lia|]. unfold wrap_int.
    replace (lineno + 2 ^ 64 + 2 ^ 63)
      with (n + 2 ^ 63 + (1 - q) * 2 ^ 64) by lia.
    rewrite Z_mod_plus_full, Z.mod_small by lia. lia.
  - exists r. split; [lia|]. unfold wrap_int.
    replace (lineno + r + 2 ^ 63)
      with (n + 2 ^ 63 + (- q) * 2 ^ 64) by lia.
    rewrite Z_mod_plus_full, Z.mod_small by lia. lia.
Qed.

Section Properties.
Context {W : Type} (E : Externals W).
Implicit Types (st : State W).

(** ** SetCurrentBreakpoint *)

(** [GetG] reads the traced process and the id of the thread only. *)
Lemma GetG_ext st st' :
  inferior st = inferior st' ->
  Thread.ID (thread st) = Thread.ID (thread st') ->
  GetG E st = GetG E st'.
Proof.
  intros Hw Hid. unfold GetG, getGVariable. rewrite Hw, Hid. reflexivity.
Qed.

(** Whatever happens after the lookup, the breakpoint found in the table
    is the thread's current breakpoint when [SetCurrentBreakpoint]
    returns. *)
Lemma SetCurrentBreakpoint_records st pc bp :
  thread_PC E (inferior st) = inr pc ->
  Breakpoints st !! sub64 pc (u64 (arch_BreakpointSize E)) = Some bp ->
  Thread.CurrentBreakpoint (thread (snd (SetCurrentBreakpoint E st)))
  = Some bp.
Proof.
  intros Hpc Hbp. unfold SetCurrentBreakpoint. rewrite Hpc, Hbp. cbn.
  destruct (heap st !! bp) as [b|] eqn:Hheap; [|reflexivity].
  unfold SetPC. cbn.
  destruct (thread_Registers E (inferior st)) as [e|regs]; [reflexivity|].
  destruct (regs_SetPC E (inferior st) regs (Breakpoint.Addr b))
    as [[e|] w']; cbn; [reflexivity|].
  destruct (bp_checkCondition E w' b) as [met cerr].
  unfold onTriggeredBreakpoint. cbn.
  destruct met; [|reflexivity].
  match goal with |- context [GetG E ?s] => destruct (GetG E s) as [g|e|m] end;
    [| |reflexivity].
  - unfold incHitCount. cbn. rewrite Hheap.
    destruct (Breakpoint.HitCount b); [|reflexivity].
    unfold incTotalHitCount. cbn. rewrite lookup_insert_eq. reflexivity.
  - unfold incTotalHitCount. cbn. rewrite Hheap. reflexivity.
Qed.

(** C3. A thread whose program counter is the address of a breakpoint of
    the table plus the size of the trap instruction: [SetCurrentBreakpoint]
    makes that breakpoint the thread's [CurrentBreakpoint] and writes the
    breakpoint's address to the PC register (the traced process is left in
    the state [w'] that [regs.SetPC(thread, bp.Addr)] produced). *)
Theorem SetCurrentBreakpoint_at_trap st pc bp b regs w' :
  thread_PC E (inferior st) = inr pc ->
  Breakpoints st !! Breakpoint.Addr b = Some bp ->
  heap st !! bp = Some b ->
  0 <= Breakpoint.Addr b < 2 ^ 64 ->
  pc = add64 (Breakpoint.Addr b) (u64 (arch_BreakpointSize E)) ->
  thread_Registers E (inferior st) = inr regs ->
  regs_SetPC E (inferior st) regs (Breakpoint.Addr b) = (None, w') ->
  Thread.CurrentBreakpoint (thread (snd (SetCurrentBreakpoint E st)))
  = Some bp
  /\ inferior (snd (SetCurrentBreakpoint E st)) = w'.
Proof.
  intros Hpc Htab Hheap Hrange -> Hregs Hset.
  assert (Hkey : Breakpoints st
                   !! sub64 (add64 (Breakpoint.Addr b)
                               (u64 (arch_BreakpointSize E)))
                        (u64 (arch_BreakpointSize E)) = Some bp)
    by (rewrite sub64_add64 by exact Hrange; exact Htab).
  split; [exact (SetCurrentBreakpoint_records st _ bp Hpc Hkey)|].
  unfold SetCurrentBreakpoint. rewrite Hpc, Hkey. cbn. rewrite Hheap.
  unfold SetPC. cbn. rewrite Hregs, Hset. cbn.
  destruct (bp_checkCondition E w' b) as [met cerr].
  unfold onTriggeredBreakpoint. cbn.
  destruct met; [|reflexivity].
  match goal with |- context [GetG E ?s] => destruct (GetG E s) as [g|e|m] end;
    [| |reflexivity].
  - unfold incHitCount. cbn. rewrite Hheap.
    destruct (Breakpoint.HitCount b); [|reflexivity].
    unfold incTotalHitCount. cbn. rewrite lookup_insert_eq. reflexivity.
  - unfold incTotalHitCount. cbn. rewrite Hheap. reflexivity.
Qed.

(** C10. When the program counter minus the size of the trap instruction
    is not a key of the breakpoint table, [SetCurrentBreakpoint] returns
    [nil] and the whole state is as before: the thread's
    [CurrentBreakpoint], [BreakpointConditionMet] and
    [BreakpointConditionError], the traced process with its PC, and every
    breakpoint with its counters. *)
Theorem SetCurrentBreakpoint_no_breakpoint st pc :
  thread_PC E (inferior st) = inr pc ->
  Breakpoints st !! sub64 pc (u64 (arch_BreakpointSize E)) = None ->
  SetCurrentBreakpoint E st = (Ok tt, st).
Proof.
  intros Hpc Hnone. unfold SetCurrentBreakpoint. rewrite Hpc, Hnone.
  reflexivity.
Qed.

(** C4 (as amended). On a breakpoint hit whose PC rewind succeeds, the
    counters of the breakpoint move with the boolean result [met] of the
    condition alone, whatever error [cerr] the evaluation reports with
    it: when [met] is false no counter changes; when [met] is true the
    total counter is incremented once, and the counter of the goroutine
    is incremented once when the goroutine is resolved and left alone
    when its resolution fails. *)
Theorem SetCurrentBreakpoint_hit_counters st pc bp b regs w' met cerr m :
  thread_PC E (inferior st) = inr pc ->
  Breakpoints st !! sub64 pc (u64 (arch_BreakpointSize E)) = Some bp ->
  heap st !! bp = Some b ->
  Breakpoint.HitCount b = Some m ->
  thread_Registers E (inferior st) = inr regs ->
  regs_SetPC E (inferior st) regs (Breakpoint.Addr b) = (None, w') ->
  bp_checkCondition E w' b = (met, cerr) ->
  let r := SetCurrentBreakpoint E st in
  let total' := add64 (Breakpoint.TotalHitCount b) 1 in
  Thread.BreakpointConditionError (thread (snd r)) = cerr
  /\ (met = false -> fst r = Ok tt /\ heap (snd r) = heap st)
  /\ (met = true -> forall g, GetG E (with_inferior w' st) = Ok g ->
      fst r = Ok tt /\
      heap (snd r)
      = <[bp := Breakpoint.mk (Breakpoint.FunctionName b)
                  (Breakpoint.File b) (Breakpoint.Line b)
                  (Breakpoint.Addr b) (Breakpoint.Temp b)
                  (Some (<[G.ID g := add64 (default 0 (m !! G.ID g)) 1]> m))
                  total']> (heap st))
  /\ (met = true -> forall e, GetG E (with_inferior w' st) = Err e ->
      fst r = Ok tt /\
      heap (snd r)
      = <[bp := Breakpoint.mk (Breakpoint.FunctionName b)
                  (Breakpoint.File b) (Breakpoint.Line b)
                  (Breakpoint.Addr b) (Breakpoint.Temp b)
                  (Some m) total']> (heap st)).
Proof.
  intros Hpc Hkey Hheap Hm Hregs Hset Hcond. cbv zeta.
  unfold SetCurrentBreakpoint. rewrite Hpc, Hkey. cbn. rewrite Hheap.
  unfold SetPC. cbn. rewrite Hregs, Hset. cbn. rewrite Hcond.
  unfold onTriggeredBreakpoint. cbn.
  match goal with |- context [GetG E ?s] =>
    rewrite (GetG_ext s (with_inferior w' st) eq_refl eq_refl) end.
  destruct met.
  - destruct (GetG E (with_inferior w' st)) as [g|e|msg] eqn:HG.
    + unfold incHitCount. cbn. rewrite Hheap, Hm.
      unfold incTotalHitCount. cbn. rewrite lookup_insert_eq. cbn.
      repeat split; try discriminate; intros; simplify_eq;
        rewrite ?insert_insert_eq; reflexivity.
    + unfold incTotalHitCount. cbn. rewrite Hheap. cbn.
      repeat split; try discriminate; intros; simplify_eq;
        rewrite ?Hm; reflexivity.
    + cbn. repeat split; try discriminate.
  - cbn. repeat split; try discriminate.
Qed.

(** ** The installer of temporary breakpoints *)

Lemma SetTempBreakpoint_table_other addr a st :
  a <> addr ->
  Breakpoints (snd (SetTempBreakpoint E addr st)) !! a = Breakpoints st !! a.
Proof.
  intros Hne. unfold SetTempBreakpoint.
  destruct (Breakpoints st !! addr); [reflexivity|].
  destruct (writeSoftwareBreakpoint E (inferior st) addr) as [[e|] w];
    [reflexivity|].
  destruct (Dwarf_PCToLine E addr) as [[f l] fn]. cbn.
  apply lookup_insert_ne. congruence.
Qed.

Lemma SetTempBreakpoint_table_mono addr a st :
  is_Some (Breakpoints st !! a) ->
  is_Some (Breakpoints (snd (SetTempBreakpoint E addr st)) !! a).
Proof.
  intros Ha. destruct (decide (a = addr)) as [->|Hne].
  - unfold SetTempBreakpoint. destruct Ha as [p Hp]. rewrite Hp. cbn. eauto.
  - rewrite SetTempBreakpoint_table_other by exact Hne. exact Ha.
Qed.

(** The installer trips on nothing: it returns or reports an error. *)
Lemma SetTempBreakpoint_no_panic addr st msg :
  fst (SetTempBreakpoint E addr st) <> Panic msg.
Proof.
  unfold SetTempBreakpoint.
  destruct (Breakpoints st !! addr); [discriminate|].
  destruct (writeSoftwareBreakpoint E (inferior st) addr) as [[e|] w];
    [discriminate|].
  destruct (Dwarf_PCToLine E addr) as [[f l] fn]. discriminate.
Qed.

(** An address that has an entry is refused, and nothing changes. *)
Lemma SetTempBreakpoint_exists addr st p :
  Breakpoints st !! addr = Some p ->
  SetTempBreakpoint E addr st = (Err (BreakpointExistsError addr), st).
Proof. intros Hp. unfold SetTempBreakpoint. rewrite Hp. reflexivity. Qed.

(** The traced process is touched by one trap write at most, at the
    address installed. *)
Lemma SetTempBreakpoint_inferior addr st :
  inferior (snd (SetTempBreakpoint E addr st)) = inferior st
  \/ inferior (snd (SetTempBreakpoint E addr st))
     = snd (writeSoftwareBreakpoint E (inferior st) addr).
Proof.
  unfold SetTempBreakpoint.
  destruct (Breakpoints st !! addr); [left; reflexivity|].
  destruct (writeSoftwareBreakpoint E (inferior st) addr) as [[e|] w];
    [right; reflexivity|].
  destruct (Dwarf_PCToLine E addr) as [[f l] fn]. right. reflexivity.
Qed.

(** ** setNextTempBreakpoints *)

(** The loop does not panic. *)
Lemma setNextTempBreakpoints_no_panic curpc pcs st msg :
  fst (setNextTempBreakpoints E curpc pcs st) <> Panic msg.
Proof.
  revert st. induction pcs as [|pc rest IH]; intros st; cbn; [discriminate|].
  destruct ((pc =? curpc) || (pc =? sub64 curpc 1)); [apply IH|].
  destruct (SetTempBreakpoint E pc st) as [[p|e|m] st'] eqn:Hset.
  - apply IH.
  - destruct (isBreakpointExistsError e); [apply IH|discriminate].
  - exfalso. eapply (SetTempBreakpoint_no_panic pc st m).
    rewrite Hset. reflexivity.
Qed.

(** The table at an address that the loop skips, or that is not among
    the targets, is as before. *)
Lemma setNextTempBreakpoints_table_skipped curpc pcs st a :
  (forall pc, In pc pcs ->
     (pc =? curpc) || (pc =? sub64 curpc 1) = false -> pc <> a) ->
  Breakpoints (snd (setNextTempBreakpoints E curpc pcs st)) !! a
  = Breakpoints st !! a.
Proof.
  revert st. induction pcs as [|pc rest IH]; intros st Hskip; cbn;
    [reflexivity|].
  assert (Hrest : forall pc', In pc' rest ->
            (pc' =? curpc) || (pc' =? sub64 curpc 1) = false -> pc' <> a)
    by (intros pc' Hin; apply Hskip; right; exact Hin).
  destruct ((pc =? curpc) || (pc =? sub64 curpc 1)) eqn:Hpc;
    [apply IH; exact Hrest|].
  assert (Hne : a <> pc)
    by (intros ->; exact (Hskip pc (or_introl eq_refl) Hpc eq_refl)).
  pose proof (SetTempBreakpoint_table_other pc a st Hne) as Hother.
  destruct (SetTempBreakpoint E pc st) as [[p|e|m] st']; cbn in Hother.
  - rewrite IH by exact Hrest. exact Hother.
  - destruct (isBreakpointExistsError e); cbn;
      [rewrite IH by exact Hrest|]; exact Hother.
  - exact Hother.
Qed.

(** A property of the traced process that every trap write at a target
    of the loop maintains is maintained by the loop. *)
Lemma setNextTempBreakpoints_inferior (I : W -> Prop) curpc pcs st :
  (forall w a, In a pcs -> (a =? curpc) || (a =? sub64 curpc 1) = false ->
     I w -> I (snd (writeSoftwareBreakpoint E w a))) ->
  I (inferior st) ->
  I (inferior (snd (setNextTempBreakpoints E curpc pcs st))).
Proof.
  revert st. induction pcs as [|pc rest IH]; intros st Hw Hst; cbn;
    [exact Hst|].
  assert (Hrest : forall w a, In a rest ->
            (a =? curpc) || (a =? sub64 curpc 1) = false ->
            I w -> I (snd (writeSoftwareBreakpoint E w a)))
    by (intros w a Hin; apply Hw; right; exact Hin).
  destruct ((pc =? curpc) || (pc =? sub64 curpc 1)) eqn:Hpc;
    [apply IH; assumption|].
  assert (Hst' : I (inferior (snd (SetTempBreakpoint E pc st)))).
  { destruct (SetTempBreakpoint_inferior pc st) as [-> | ->];
      [exact Hst|].
    apply Hw; [left; reflexivity|exact Hpc|exact Hst]. }
  destruct (SetTempBreakpoint E pc st) as [[p|e|m] st']; cbn in Hst'.
  - apply IH; assumption.
  - destruct (isBreakpointExistsError e); cbn; [apply IH|]; assumption.
  - exact Hst'.
Qed.

Lemma skipped_current curpc pc :
  (pc =? curpc) || (pc =? sub64 curpc 1) = false ->
  pc <> curpc /\ pc <> sub64 curpc 1.
Proof.
  intros H. apply orb_false_elim in H as [H1 H2].
  apply Z.eqb_neq in H1, H2. split; assumption.
Qed.

(** C5. Whatever the candidates and the current PC, the installation of
    temporary breakpoints leaves the breakpoint table as it was at the
    current PC and at the current PC minus one, and never has the trap
    writer called on either address: every property of the traced
    process that trap writes at other addresses maintain still holds
    afterwards.  The same holds of [cnext] as a whole and of the
    installation [next] ends with. *)
Theorem setNextTempBreakpoints_skips_current curpc pcs st :
  let st' := snd (setNextTempBreakpoints E curpc pcs st) in
  Breakpoints st' !! curpc = Breakpoints st !! curpc
  /\ Breakpoints st' !! sub64 curpc 1 = Breakpoints st !! sub64 curpc 1
  /\ (forall I : W -> Prop,
        (forall w a, a <> curpc -> a <> sub64 curpc 1 ->
           I w -> I (snd (writeSoftwareBreakpoint E w a))) ->
        I (inferior st) -> I (inferior st'))
  /\ (forall fde file a, a = curpc \/ a = sub64 curpc 1 ->
        Breakpoints (snd (cnext E curpc fde file st)) !! a
        = Breakpoints st !! a)
  /\ (forall curloc fde a,
        Location.PC curloc = curpc -> a = curpc \/ a = sub64 curpc 1 ->
        Breakpoints (snd (nextFromReturnAddress E curloc fde pcs st)) !! a
        = Breakpoints st !! a).
Proof.
  assert (Hskip : forall l a, a = curpc \/ a = sub64 curpc 1 ->
            forall pc, In pc l ->
              (pc =? curpc) || (pc =? sub64 curpc 1) = false -> pc <> a).
  { intros l a Ha pc _ Hpc. apply skipped_current in Hpc as [H1 H2].
    destruct Ha as [-> | ->]; assumption. }
  cbv zeta. repeat split.
  - apply setNextTempBreakpoints_table_skipped. apply Hskip. left. reflexivity.
  - apply setNextTempBreakpoints_table_skipped. apply Hskip. right. reflexivity.
  - intros I HI Hst. apply setNextTempBreakpoints_inferior; [|exact Hst].
    intros w a _ Ha. apply skipped_current in Ha as [H1 H2].
    apply HI; assumption.
  - intros fde file a Ha. unfold cnext.
    destruct (thread_ReturnAddress E (inferior st)); [reflexivity|].
    apply setNextTempBreakpoints_table_skipped. apply Hskip. exact Ha.
  - intros curloc fde a Hloc Ha. unfold nextFromReturnAddress.
    destruct (thread_ReturnAddress E (inferior st)) as [e|ret];
      [reflexivity|].
    match goal with |- context [if ?c then _ else _] => destruct c end.
    + destruct (GetG E st); reflexivity.
    + rewrite Hloc. apply setNextTempBreakpoints_table_skipped.
      apply Hskip. exact Ha.
Qed.

Lemma setNextTempBreakpoints_table_mono curpc pcs st a :
  is_Some (Breakpoints st !! a) ->
  is_Some (Breakpoints (snd (setNextTempBreakpoints E curpc pcs st)) !! a).
Proof.
  revert st. induction pcs as [|pc rest IH]; intros st Ha; cbn; [exact Ha|].
  destruct ((pc =? curpc) || (pc =? sub64 curpc 1)); [apply IH; exact Ha|].
  pose proof (SetTempBreakpoint_table_mono pc a st Ha) as Hmono.
  destruct (SetTempBreakpoint E pc st) as [[p|e|m] st']; cbn in Hmono.
  - apply IH. exact Hmono.
  - destruct (isBreakpointExistsError e); cbn; [apply IH|]; exact Hmono.
  - exact Hmono.
Qed.

(** With a trap writer that does not fail, the installer returns [nil]
    or [BreakpointExistsError], and the address has an entry afterwards. *)
Lemma SetTempBreakpoint_writes_ok addr st :
  (forall w a, fst (writeSoftwareBreakpoint E w a) = None) ->
  is_Some (Breakpoints (snd (SetTempBreakpoint E addr st)) !! addr)
  /\ match fst (SetTempBreakpoint E addr st) with
     | Ok _ => True
     | Err e => isBreakpointExistsError e = true
     | Panic _ => False
     end.
Proof.
  intros Hw. unfold SetTempBreakpoint.
  destruct (Breakpoints st !! addr) as [p|] eqn:Hp; [cbn; rewrite Hp; eauto|].
  specialize (Hw (inferior st) addr).
  destruct (writeSoftwareBreakpoint E (inferior st) addr) as [[e|] w];
    [discriminate|].
  destruct (Dwarf_PCToLine E addr) as [[f l] fn]. cbn.
  rewrite lookup_insert_eq. eauto.
Qed.

(** The loop of [setNextTempBreakpoints] and breakpoints that are
    already there.
    (1) [setNextTempBreakpoints] never returns a [BreakpointExistsError].
    (2) When the installer reports [BreakpointExistsError] at a target,
    as it does when the table has an entry there, the loop goes on with
    the remaining targets.  (3) Any other error of the installer at a
    target is returned as it is, and the loop stops there.  (4) When no
    trap write fails, the setup returns [nil] and every target that is
    not skipped has a breakpoint, old or new. *)
Theorem setNextTempBreakpoints_tolerates_existing curpc :
  (forall pcs st e,
     fst (setNextTempBreakpoints E curpc pcs st) = Err e ->
     isBreakpointExistsError e = false)
  /\ (forall pc rest st p,
        (pc =? curpc) || (pc =? sub64 curpc 1) = false ->
        Breakpoints st !! pc = Some p ->
        setNextTempBreakpoints E curpc (pc :: rest) st
        = setNextTempBreakpoints E curpc rest st)
  /\ (forall pc rest st e st',
        (pc =? curpc) || (pc =? sub64 curpc 1) = false ->
        SetTempBreakpoint E pc st = (Err e, st') ->
        setNextTempBreakpoints E curpc (pc :: rest) st
        = if isBreakpointExistsError e
          then setNextTempBreakpoints E curpc rest st'
          else (Err e, st'))
  /\ (forall pcs st,
        (forall w a, fst (writeSoftwareBreakpoint E w a) = None) ->
        fst (setNextTempBreakpoints E curpc pcs st) = Ok tt
        /\ forall pc, In pc pcs ->
             (pc =? curpc) || (pc =? sub64 curpc 1) = false ->
             is_Some (Breakpoints
                        (snd (setNextTempBreakpoints E curpc pcs st)) !! pc)).
Proof.
  repeat apply conj.
  - intros pcs. induction pcs as [|pc rest IH]; intros st e; cbn;
      [discriminate|].
    destruct ((pc =? curpc) || (pc =? sub64 curpc 1)); [apply IH|].
    destruct (SetTempBreakpoint E pc st) as [[p|e'|m] st']; cbn.
    + apply IH.
    + destruct (isBreakpointExistsError e') eqn:He'; [apply IH|].
      cbn. intros [= <-]. exact He'.
    + discriminate.
  - intros pc rest st p Hskip Hp. cbn. rewrite Hskip.
    rewrite (SetTempBreakpoint_exists pc st p Hp). reflexivity.
  - intros pc rest st e st' Hskip Hset. cbn. rewrite Hskip, Hset.
    reflexivity.
  - intros pcs st Hw. revert st.
    induction pcs as [|pc rest IH]; intros st; cbn.
    + split; [reflexivity|]. intros pc [].
    + destruct ((pc =? curpc) || (pc =? sub64 curpc 1)) eqn:Hskip.
      * destruct (IH st) as [Hok Hin]. split; [exact Hok|].
        intros pc' [<- | Hpc'] Hskip'; [congruence|].
        apply Hin; assumption.
      * destruct (SetTempBreakpoint_writes_ok pc st Hw) as [Hsome Hres].
        destruct (SetTempBreakpoint E pc st) as [[p|e|m] st'];
          cbn in Hsome, Hres; [| |contradiction].
        -- destruct (IH st') as [Hok Hin]. split; [exact Hok|].
           intros pc' [<- | Hpc'] Hskip'.
           ++ apply setNextTempBreakpoints_table_mono. exact Hsome.
           ++ apply Hin; assumption.
        -- rewrite Hres. destruct (IH st') as [Hok Hin].
           split; [exact Hok|].
           intros pc' [<- | Hpc'] Hskip'.
           ++ apply setNextTempBreakpoints_table_mono. exact Hsome.
           ++ apply Hin; assumption.
Qed.

(** ** setNextBreakpoints *)

(** C7. On a thread that is blocked, [setNextBreakpoints] returns
    [ThreadBlockedError] whatever the fuel, and the state, with its
    breakpoint table, is the one it was called in. *)
Theorem setNextBreakpoints_blocked fuel st :
  thread_blocked E (inferior st) = true ->
  setNextBreakpoints E fuel st = Some (Err ThreadBlockedError, st).
Proof.
  intros Hblocked. unfold setNextBreakpoints. rewrite Hblocked. reflexivity.
Qed.

(** ** The scan for the line after the deferred call *)

(** What a finished scan found: the first line that [LineToPC] maps, in
    the order in which the loop visits the lines, within the fuel. *)
Lemma scanDeferLine_Some fuel f lineno dpc :
  scanDeferLine E fuel f lineno = Some dpc ->
  exists k, 1 <= k <= Z.of_nat fuel
            /\ Dwarf_LineToPC E f (wrap_int (lineno + k)) = inr dpc
            /\ forall j, 1 <= j < k ->
                 exists e, Dwarf_LineToPC E f (wrap_int (lineno + j)) = inl e.
Proof.
  revert lineno. induction fuel as [|fuel IH]; intros lineno;
    cbn [scanDeferLine]; [discriminate|].
  destruct (Dwarf_LineToPC E f (wrap_int (lineno + 1))) as [e|pc] eqn:Hline.
  - intros Hscan. destruct (IH _ Hscan) as (k & Hk & Hpc & Hbelow).
    rewrite wrap_int_add_l in Hpc.
    exists (k + 1). split; [lia|].
    split; [replace (lineno + (k + 1)) with (lineno + 1 + k) by lia;
            exact Hpc|].
    intros j Hj. destruct (decide (j = 1)) as [->|Hne]; [eauto|].
    destruct (Hbelow (j - 1)) as [e' He']; [lia|].
    rewrite wrap_int_add_l in He'.
    replace (lineno + 1 + (j - 1)) with (lineno + j) in He' by lia. eauto.
  - intros [= <-]. exists 1. split; [lia|].
    split; [exact Hline|]. intros j Hj. lia.
Qed.

(** A mapped line within the fuel ends the scan. *)
Lemma scanDeferLine_finds fuel f lineno k pc :
  1 <= k <= Z.of_nat fuel ->
  Dwarf_LineToPC E f (wrap_int (lineno + k)) = inr pc ->
  exists dpc, scanDeferLine E fuel f lineno = Some dpc.
Proof.
  revert lineno k. induction fuel as [|fuel IH]; intros lineno k Hk Hpc;
    [lia|].
  cbn [scanDeferLine].
  destruct (Dwarf_LineToPC E f (wrap_int (lineno + 1))) as [e|pc'] eqn:Hline;
    [|eauto].
  destruct (decide (k = 1)) as [->|Hne]; [congruence|].
  apply (IH _ (k - 1)); [lia|].
  rewrite wrap_int_add_l.
  replace (lineno + 1 + (k - 1)) with (lineno + k) by lia. exact Hpc.
Qed.

(** The scan ends on the first mapped line of its order of visit. *)
Lemma scanDeferLine_first fuel f lineno k pc :
  1 <= k <= Z.of_nat fuel ->
  Dwarf_LineToPC E f (wrap_int (lineno + k)) = inr pc ->
  (forall j pc', 1 <= j < k ->
     Dwarf_LineToPC E f (wrap_int (lineno + j)) <> inr pc') ->
  scanDeferLine E fuel f lineno = Some pc.
Proof.
  intros Hk Hpc Hfirst.
  destruct (scanDeferLine_finds fuel f lineno k pc Hk Hpc) as [dpc Hscan].
  rewrite Hscan. f_equal.
  apply scanDeferLine_Some in Hscan as (k' & Hk' & Hpc' & Hbelow).
  destruct (Z.lt_trichotomy k k') as [Hlt | [-> | Hgt]].
  - destruct (Hbelow k) as [e He]; [lia|congruence].
  - congruence.
  - exfalso. apply (Hfirst k' dpc); [lia|exact Hpc'].
Qed.

(** With no mapped line in the range of [int] the scan outlasts any
    fuel. *)
Lemma scanDeferLine_None fuel f lineno :
  (forall n pc, - 2 ^ 63 <= n < 2 ^ 63 -> Dwarf_LineToPC E f n <> inr pc) ->
  scanDeferLine E fuel f lineno = None.
Proof.
  intros Hnone.
  destruct (scanDeferLine E fuel f lineno) as [dpc|] eqn:Hscan;
    [|reflexivity].
  apply scanDeferLine_Some in Hscan as (k & Hk & Hpc & _).
  exfalso. apply (Hnone _ dpc (wrap_int_range _) Hpc).
Qed.

(** The scan ends for some fuel exactly when some line number of the
    range of [int] maps to a PC in the file. *)
Lemma scanDeferLine_ends_iff f lineno :
  (exists fuel dpc, scanDeferLine E fuel f lineno = Some dpc)
  <-> (exists n pc, - 2 ^ 63 <= n < 2 ^ 63 /\ Dwarf_LineToPC E f n = inr pc).
Proof.
  split.
  - intros (fuel & dpc & Hscan).
    apply scanDeferLine_Some in Hscan as (k & Hk & Hpc & _).
    exists (wrap_int (lineno + k)), dpc.
    split; [apply wrap_int_range|exact Hpc].
  - intros (n & pc & Hn & Hpc).
    destruct (wrap_int_reach lineno n Hn) as (k & Hk & Hwrap).
    exists (Z.to_nat k).
    apply (scanDeferLine_finds _ f lineno k pc); [lia|].
    rewrite Hwrap. exact Hpc.
Qed.

(** C9 (as amended). The scan that [next] starts at the line of the
    deferred call visits the line numbers upwards and, past the top of
    the range of [int], from the bottom of the range up to the line it
    started from.  (1) It ends, for some fuel, exactly when some line
    number of the range of [int] maps to a PC in the file; (2) it then
    ends on the first mapped line of that order, with any fuel that
    covers the number of increments up to it; (3) in particular a mapped
    line strictly greater than the line of the deferred call ends it
    within the distance to the first such line; (4) when no line number
    at all maps to a PC it is still running whatever the fuel; (5)
    [next], once it has a goroutine with a deferred call, returns under
    the condition of (1) only. *)
Theorem scanDeferLine_terminates_iff f lineno :
  ((exists fuel dpc, scanDeferLine E fuel f lineno = Some dpc)
   <-> (exists n pc,
          - 2 ^ 63 <= n < 2 ^ 63 /\ Dwarf_LineToPC E f n = inr pc))
  /\ (forall k pc fuel,
        1 <= k ->
        Dwarf_LineToPC E f (wrap_int (lineno + k)) = inr pc ->
        (forall j pc', 1 <= j < k ->
           Dwarf_LineToPC E f (wrap_int (lineno + j)) <> inr pc') ->
        (Z.to_nat k <= fuel)%nat ->
        scanDeferLine E fuel f lineno = Some pc)
  /\ (forall n pc fuel,
        - 2 ^ 63 <= lineno -> lineno < n < 2 ^ 63 ->
        Dwarf_LineToPC E f n = inr pc ->
        (forall m pc', lineno < m < n -> Dwarf_LineToPC E f m <> inr pc') ->
        (Z.to_nat (n - lineno) <= fuel)%nat ->
        scanDeferLine E fuel f lineno = Some pc)
  /\ ((forall n pc,
         - 2 ^ 63 <= n < 2 ^ 63 -> Dwarf_LineToPC E f n <> inr pc) ->
      forall fuel, scanDeferLine E fuel f lineno = None)
  /\ (forall curloc fde st g fn,
        GetG E st = Ok g -> G.DeferPC g <> 0 ->
        Dwarf_PCToLine E (G.DeferPC g) = (f, lineno, fn) ->
        ((exists fuel, is_Some (next E fuel curloc fde st))
         <-> (exists n pc,
                - 2 ^ 63 <= n < 2 ^ 63 /\ Dwarf_LineToPC E f n = inr pc))).
Proof.
  split; [apply scanDeferLine_ends_iff|]. split; [|split; [|split]].
  - intros k pc fuel Hk Hpc Hfirst Hfuel.
    apply (scanDeferLine_first fuel f lineno k pc); [lia|exact Hpc|exact Hfirst].
  - intros n pc fuel Hlow Hn Hpc Hfirst Hfuel.
    apply (scanDeferLine_first fuel f lineno (n - lineno) pc); [lia| |].
    + replace (lineno + (n - lineno)) with n by lia.
      rewrite wrap_int_small by lia. exact Hpc.
    + intros j pc' Hj. rewrite wrap_int_small by lia.
      apply Hfirst. lia.
  - intros Hnone fuel. apply scanDeferLine_None. exact Hnone.
  - intros curloc fde st g fn HG Hdefer Hline.
    apply Z.eqb_neq in Hdefer.
    rewrite <- (scanDeferLine_ends_iff f lineno). split.
    + intros (fuel & Hnext). exists fuel.
      unfold next in Hnext. rewrite HG, Hdefer in Hnext.
      unfold setDeferBreakpoint in Hnext. rewrite Hline in Hnext.
      destruct (scanDeferLine E fuel f lineno) as [dpc|]; [eauto|].
      destruct Hnext as [x Hx]. discriminate.
    + intros (fuel & dpc & Hscan).
      exists fuel. unfold next. rewrite HG, Hdefer.
      unfold setDeferBreakpoint. rewrite Hline, Hscan.
      match goal with |- context [SetTempBreakpoint E dpc ?s] =>
        destruct (SetTempBreakpoint E dpc s) as [[p|e|m] st2] end; cbn.
      * destruct (nextFromReturnAddress E curloc fde
                    (next_pcs E curloc fde) st2). eauto.
      * eauto.
      * eauto.
Qed.

(** ** threadResume *)

(** The step primitive does not touch the breakpoint objects. *)
Lemma resumeSwitch_heap mode sig st :
  heap (snd (resumeSwitch E mode sig st)) = heap st.
Proof.
  unfold resumeSwitch. destruct mode; cbn.
  - destruct (thread_singleStep E (inferior st)). reflexivity.
  - destruct (thread_resumeWithSig E (inferior st) sig). reflexivity.
  - reflexivity.
Qed.

(** When the trap cannot be cleared, [threadResume] returns the error of
    [bp.Clear]: nothing is executed and nothing is scheduled. *)
Lemma threadResume_clear_fails mode sig st bp b e w1 :
  Thread.CurrentBreakpoint (thread st) = Some bp ->
  heap st !! bp = Some b ->
  bp_Clear E (inferior st) b = (Some e, w1) ->
  threadResume E mode sig st = (Err e, with_inferior w1 st).
Proof.
  intros Hcur Hheap Hclear. unfold threadResume.
  rewrite Hcur, Hheap, Hclear. reflexivity.
Qed.

(** An unknown mode panics, and the breakpoint that was cleared is
    written back at its address all the same. *)
Lemma threadResume_unknown_mode name sig st bp b w1 :
  Thread.CurrentBreakpoint (thread st) = Some bp ->
  heap st !! bp = Some b ->
  bp_Clear E (inferior st) b = (None, w1) ->
  fst (threadResume E (ModeOther name) sig st)
  = Panic "unknown mode passed to threadResume"
  /\ inferior (snd (threadResume E (ModeOther name) sig st))
     = snd (createAndWriteBreakpoint E w1
              (Location.mk (Breakpoint.Addr b) (Breakpoint.File b)
                 (Breakpoint.Line b)
                 (Dwarf_LookupFunc E (Breakpoint.FunctionName b)))
              (Breakpoint.Temp b) (arch_BreakpointInstruction E)).
Proof.
  intros Hcur Hheap Hclear. unfold threadResume.
  rewrite Hcur, Hheap, Hclear. cbn.
  unfold restoreBreakpoint, restoreLocation. cbn. rewrite Hheap.
  match goal with |- context [createAndWriteBreakpoint E w1 ?l ?t ?i] =>
    destruct (createAndWriteBreakpoint E w1 l t i) as [[nerr|] w3] end;
    split; reflexivity.
Qed.

(** C2. A resume, in either mode, of a thread stopped at a breakpoint
    whose trap [bp.Clear] removes, leaving the traced process in [w1]:
    the step primitive of the mode runs on [w1], after the trap is
    cleared; whatever it returns, the breakpoint is written back last of
    all, on the state the primitive left: at the address of the
    breakpoint, with its file, its line and the function of its name,
    with its [Temp] flag and the trap instruction of the architecture;
    and the value returned is the primitive's own: the outcome of
    writing the breakpoint back, which only reaches the log, has no part
    in it. *)
Theorem threadResume_at_breakpoint mode sig st bp b w1 :
  Thread.CurrentBreakpoint (thread st) = Some bp ->
  heap st !! bp = Some b ->
  bp_Clear E (inferior st) b = (None, w1) ->
  mode = ModeStepInstruction \/ mode = ModeResume ->
  let exec :=
    match mode with
    | ModeStepInstruction => thread_singleStep E w1
    | _ => thread_resumeWithSig E w1 sig
    end in
  let loc :=
    Location.mk (Breakpoint.Addr b) (Breakpoint.File b) (Breakpoint.Line b)
      (Dwarf_LookupFunc E (Breakpoint.FunctionName b)) in
  let restore :=
    createAndWriteBreakpoint E (snd exec) loc (Breakpoint.Temp b)
      (arch_BreakpointInstruction E) in
  let r := threadResume E mode sig st in
  fst r = of_err (fst exec)
  /\ inferior (snd r) = snd restore
  /\ logged (snd r)
     = (logged st ++ match fst restore with
                     | Some nerr => [nerr]
                     | None => []
                     end)%list
  /\ Breakpoints (snd r) = Breakpoints st
  /\ heap (snd r) = heap st.
Proof.
  intros Hcur Hheap Hclear Hmode. cbv zeta. unfold threadResume.
  rewrite Hcur, Hheap, Hclear.
  destruct Hmode as [-> | ->]; cbn.
  - destruct (thread_singleStep E w1) as [err w2]. cbn.
    unfold restoreBreakpoint, restoreLocation. cbn. rewrite Hheap.
    match goal with |- context [createAndWriteBreakpoint E w2 ?l ?t ?i] =>
      destruct (createAndWriteBreakpoint E w2 l t i) as [[nerr|] w3] end;
      cbn; rewrite ?app_nil_r; repeat split; reflexivity.
  - destruct (thread_resumeWithSig E w1 sig) as [err w2]. cbn.
    unfold restoreBreakpoint, restoreLocation. cbn. rewrite Hheap.
    match goal with |- context [createAndWriteBreakpoint E w2 ?l ?t ?i] =>
      destruct (createAndWriteBreakpoint E w2 l t i) as [[nerr|] w3] end;
      cbn; rewrite ?app_nil_r; repeat split; reflexivity.
Qed.

(** ** next: the goroutine that is exiting *)

(** What the deferred-call stage of [next] leaves when it succeeds: the
    placeholder at the deferred call and, at the line the scan found, a
    new temporary breakpoint. *)
Lemma setDeferBreakpoint_Ok fuel g st st2 f lineno fn :
  Dwarf_PCToLine E (G.DeferPC g) = (f, lineno, fn) ->
  setDeferBreakpoint E fuel g st = Some (Ok tt, st2) ->
  exists dpc p b,
    scanDeferLine E fuel f lineno = Some dpc
    /\ dpc <> G.DeferPC g
    /\ Breakpoints st2
       = <[dpc := p]> (<[G.DeferPC g := fresh (dom (heap st))]>
                         (Breakpoints st))
    /\ heap st2 !! p = Some b
    /\ Breakpoint.Temp b = true
    /\ Breakpoint.Addr b = dpc.
Proof.
  intros Hline. unfold setDeferBreakpoint. rewrite Hline.
  destruct (scanDeferLine E fuel f lineno) as [dpc|]; [|discriminate].
  unfold SetTempBreakpoint. cbn.
  destruct (decide (dpc = G.DeferPC g)) as [->|Hne].
  { rewrite lookup_insert_eq. discriminate. }
  rewrite lookup_insert_ne by congruence.
  destruct (Breakpoints st !! dpc); [discriminate|].
  destruct (writeSoftwareBreakpoint E (inferior st) dpc) as [[e|] w];
    [discriminate|].
  destruct (Dwarf_PCToLine E dpc) as [[f' l'] fn']. cbn.
  intros [= <-]. cbn. eexists dpc, _, _.
  split; [reflexivity|]. split; [exact Hne|]. split; [reflexivity|].
  split; [apply lookup_insert_eq|]. split; reflexivity.
Qed.

(** C1 (as amended). A call of [next] that reaches the return address:
    the goroutine is resolved, and either it has no deferred call
    ([st2] is the state of the call) or the deferred-call stage succeeds
    and leaves [st2].  When no candidate PC is covered by the frame and
    the return address resolves to [runtime.goexit], [next] returns
    [GoroutineExitingError] with the id of the goroutine as resolved at
    that point.  Nothing is installed on the way for the return address:
    without a deferred call the state is the one [next] was called in;
    with one, the table on return is the table of the call without its
    entry at the deferred call, the placeholder being deleted, and with
    the temporary breakpoint at the line the scan found, which stays. *)
Theorem next_goroutine_exiting fuel curloc fde st g st2 ret fn g2 :
  GetG E st = Ok g ->
  (G.DeferPC g = 0 /\ st2 = st)
  \/ (G.DeferPC g <> 0
      /\ setDeferBreakpoint E fuel g st = Some (Ok tt, st2)) ->
  thread_ReturnAddress E (inferior st2) = inr ret ->
  existsb (FDE.Cover fde) (next_pcs E curloc fde) = false ->
  Dwarf_PCToFunc E ret = Some fn ->
  Name fn = "runtime.goexit" ->
  GetG E st2 = Ok g2 ->
  exists final,
    next E fuel curloc fde st
    = Some (Err (GoroutineExitingError (G.ID g2)), final)
    /\ (G.DeferPC g = 0 -> final = st)
    /\ (G.DeferPC g <> 0 ->
        Breakpoints final !! G.DeferPC g = None
        /\ exists dpc p b,
             scanDeferLine E fuel
               (fst (fst (Dwarf_PCToLine E (G.DeferPC g))))
               (snd (fst (Dwarf_PCToLine E (G.DeferPC g)))) = Some dpc
             /\ Breakpoints final
                = <[dpc := p]> (delete (G.DeferPC g) (Breakpoints st))
             /\ heap final !! p = Some b
             /\ Breakpoint.Temp b = true
             /\ Breakpoint.Addr b = dpc).
Proof.
  intros HG Hstage Hret Hcov Hfn Hname HG2.
  assert (Hexit : nextFromReturnAddress E curloc fde
                    (next_pcs E curloc fde) st2
                  = (Err (GoroutineExitingError (G.ID g2)), st2)).
  { unfold nextFromReturnAddress.
    rewrite Hret, Hcov, Hfn, Hname, HG2. reflexivity. }
  unfold next. rewrite HG.
  destruct Hstage as [[Hzero ->] | [Hdefer Hstage]].
  - rewrite Hzero. cbn. rewrite Hexit. exists st.
    split; [reflexivity|]. split; [reflexivity|]. intros []. reflexivity.
  - pose proof Hdefer as Hneq. apply Z.eqb_neq in Hneq. rewrite Hneq.
    rewrite Hstage, Hexit.
    exists (deleteBreakpoint (G.DeferPC g) st2).
    split; [reflexivity|]. split; [intros H0; contradiction|].
    intros _. split; [apply lookup_delete_eq|].
    destruct (Dwarf_PCToLine E (G.DeferPC g)) as [[f lineno] fn'] eqn:Hline.
    destruct (setDeferBreakpoint_Ok fuel g st st2 f lineno fn' Hline Hstage)
      as (dpc & p & b & Hscan & Hne & Htab & Hheap & Htemp & Haddr).
    exists dpc, p, b. cbn.
    split; [exact Hscan|]. split; [|auto].
    rewrite Htab.
    rewrite delete_insert_ne by congruence.
    rewrite delete_insert_eq. reflexivity.
Qed.

(** ** The candidates of next and cnext *)

Lemma AllPCsBetween_In begin end_ filename pc :
  In pc (AllPCsBetween E begin end_ filename)
  <-> In (pc, filename) (Line_table E) /\ begin <= pc <= end_.
Proof.
  unfold AllPCsBetween. rewrite in_map_iff. split.
  - intros ([pc' f] & Hfst & Hin). cbn in Hfst. subst pc'.
    apply filter_In in Hin as [Hin Hcond]. cbn in Hcond.
    apply andb_true_iff in Hcond as [Hcond Hle2].
    apply andb_true_iff in Hcond as [Hf Hle1].
    apply String.eqb_eq in Hf. subst f. split; [exact Hin|lia].
  - intros [Hin Hrange]. exists (pc, filename). split; [reflexivity|].
    apply filter_In. split; [exact Hin|]. cbn.
    rewrite String.eqb_refl. cbn.
    apply andb_true_iff. split; lia.
Qed.

(** [next] collects the line-table PCs of the file within
    [[frame.begin, frame.end)]. *)
Lemma next_pcs_range curloc fde pc :
  0 < FDE.End fde <= 2 ^ 64 ->
  In pc (next_pcs E curloc fde)
  <-> In (pc, Location.File curloc) (Line_table E)
      /\ FDE.Begin fde <= pc < FDE.End fde.
Proof.
  intros Hend. unfold next_pcs. rewrite AllPCsBetween_In.
  unfold sub64. rewrite u64_small by lia. split; intros [H1 H2]; (split; [exact H1|lia]).
Qed.

(** [cnext] collects them within [[frame.begin, frame.end]], the end of
    the frame included. *)
Lemma cnext_pcs_range fde file pc :
  In pc (cnext_pcs E fde file)
  <-> In (pc, file) (Line_table E)
      /\ FDE.Begin fde <= pc <= FDE.End fde.
Proof. unfold cnext_pcs. apply AllPCsBetween_In. Qed.
End Properties.

(** * The properties on the small traced process *)

(** Scenario A of the specification: a breakpoint at 256, trap size 1, the
    thread stopped at 257. *)
Lemma SetCurrentBreakpoint_at_trap_witness :
  Thread.CurrentBreakpoint
    (thread (snd (SetCurrentBreakpoint (Toy.externals Toy.quiet)
                    (Toy.stoppedAt 256 257))))
  = Some 1%positive
  /\ inferior (snd (SetCurrentBreakpoint (Toy.externals Toy.quiet)
                     (Toy.stoppedAt 256 257))) = 256.
Proof.
  apply (SetCurrentBreakpoint_at_trap (Toy.externals Toy.quiet)
           (Toy.stoppedAt 256 257) 257 1%positive (Toy.userBreakpoint 256)
           {| TLS := 4096 |} 256).
  - reflexivity.
  - reflexivity.
  - reflexivity.
  - cbn. lia.
  - reflexivity.
  - reflexivity.
  - reflexivity.
Defined.

(** The thread stopped at 300, where no breakpoint is. *)
Lemma SetCurrentBreakpoint_no_breakpoint_witness :
  SetCurrentBreakpoint (Toy.externals Toy.quiet) (Toy.stoppedAt 256 300)
  = (Ok tt, Toy.stoppedAt 256 300).
Proof.
  apply (SetCurrentBreakpoint_no_breakpoint (Toy.externals Toy.quiet)
           (Toy.stoppedAt 256 300) 300).
  - reflexivity.
  - reflexivity.
Defined.

(** A hit whose condition is true, the goroutine not being resolved: the
    total counter goes from 0 to 1 and the per-goroutine map stays empty. *)
Lemma SetCurrentBreakpoint_hit_counters_witness :
  fst (SetCurrentBreakpoint (Toy.externals Toy.noGoroutine)
         (Toy.stoppedAt 256 257)) = Ok tt
  /\ heap (snd (SetCurrentBreakpoint (Toy.externals Toy.noGoroutine)
                 (Toy.stoppedAt 256 257)))
     = <[1%positive := Breakpoint.mk "main.main" "main.go" 10 256 false
                         (Some ∅) (add64 0 1)]>
         (heap (Toy.stoppedAt 256 257)).
Proof.
  refine (proj2 (proj2 (proj2
    (SetCurrentBreakpoint_hit_counters (Toy.externals Toy.noGoroutine)
       (Toy.stoppedAt 256 257) 257 1%positive (Toy.userBreakpoint 256)
       {| TLS := 4096 |} 256 true None ∅ _ _ _ _ _ _ _))) eq_refl
    (errorString "could not parse g") _); reflexivity.
Defined.

(** The condition evaluates to [true] with an error: the error is recorded
    on the thread and the total counter is incremented all the same. *)
Lemma SetCurrentBreakpoint_counts_despite_error :
  let E := Toy.externals Toy.condError in
  let st := Toy.stoppedAt 256 257 in
  let st' := snd (SetCurrentBreakpoint E st) in
  bp_checkCondition E 256 (Toy.userBreakpoint 256)
  = (true, Some (errorString "error evaluating expression"))
  /\ Thread.BreakpointConditionError (thread st')
     = Some (errorString "error evaluating expression")
  /\ Breakpoint.TotalHitCount <$> heap st !! 1%positive = Some 0
  /\ Breakpoint.TotalHitCount <$> heap st' !! 1%positive = Some 1
  /\ (Breakpoint.HitCount <$> heap st' !! 1%positive)
     = Some (Some {[ 7 := 1 ]}).
Proof. vm_compute. repeat split; reflexivity. Qed.

(** A thread parked in the scheduler. *)
Lemma setNextBreakpoints_blocked_witness :
  setNextBreakpoints (Toy.externals Toy.parked) 5 (Toy.empty 272)
  = Some (Err ThreadBlockedError, Toy.empty 272).
Proof.
  apply (setNextBreakpoints_blocked (Toy.externals Toy.parked) 5
           (Toy.empty 272)).
  reflexivity.
Defined.

(** A single step from the breakpoint at 256 of main.go, line 10, in
    main.main: the journal of the traced process reads trap cleared at
    256, one instruction stepped, breakpoint written at 256; the write
    fails, which is logged, and the step returns [nil]. *)
Lemma threadResume_at_breakpoint_witness :
  let r := threadResume
             (ToyTrace.externals
                (Some (errorString "could not write breakpoint")))
             ModeStepInstruction 0 (ToyTrace.onBreakpoint 256) in
  fst r = Ok tt
  /\ inferior (snd r)
     = [ToyTrace.Cleared 256; ToyTrace.Stepped;
        ToyTrace.Written
          (Location.mk 256 "main.go" 10 (Some {| Name := "main.main" |}))
          false [204]]
  /\ logged (snd r) = [errorString "could not write breakpoint"]
  /\ Breakpoints (snd r) = Breakpoints (ToyTrace.onBreakpoint 256)
  /\ heap (snd r) = heap (ToyTrace.onBreakpoint 256).
Proof.
  apply (threadResume_at_breakpoint
           (ToyTrace.externals
              (Some (errorString "could not write breakpoint")))
           ModeStepInstruction 0 (ToyTrace.onBreakpoint 256) 1%positive
           (Toy.userBreakpoint 256) [ToyTrace.Cleared 256]).
  - reflexivity.
  - reflexivity.
  - reflexivity.
  - left. reflexivity.
Defined.

(** [next] on the goroutine that is exiting, with a deferred call: it
    returns [GoroutineExitingError{7}]; the entry at the deferred call,
    1280, is gone and the temporary breakpoint at 1296 is in the table. *)
Lemma next_goroutine_exiting_witness :
  exists final,
    next (Toy.externals Toy.exiting) 2 (Location.mk 300 "main.go" 20 None)
      (FDE.mk 256 512) (Toy.empty 300)
    = Some (Err (GoroutineExitingError 7), final)
    /\ Breakpoints final !! 1280 = None
    /\ exists p b, Breakpoints final = <[1296 := p]> (delete 1280 ∅)
                   /\ heap final !! p = Some b
                   /\ Breakpoint.Temp b = true.
Proof.
  destruct (next_goroutine_exiting (Toy.externals Toy.exiting) 2
              (Location.mk 300 "main.go" 20 None) (FDE.mk 256 512)
              (Toy.empty 300) (G.mk 7 1280 (Some 1))
              (snd (default (Ok tt, Toy.empty 300)
                      (setDeferBreakpoint (Toy.externals Toy.exiting) 2
                         (G.mk 7 1280 (Some 1)) (Toy.empty 300))))
              768 {| Name := "runtime.goexit" |} (G.mk 7 1280 (Some 1)))
    as (final & Hnext & _ & Hdefer).
  - reflexivity.
  - right. split; [discriminate|reflexivity].
  - reflexivity.
  - reflexivity.
  - reflexivity.
  - reflexivity.
  - reflexivity.
  - destruct (Hdefer ltac:(discriminate))
      as (Hgone & dpc & p & b & Hscan & Htab & Hheap & Htemp & _).
    injection Hscan as <-.
    exists final. split; [exact Hnext|]. split; [exact Hgone|].
    exists p, b. split; [exact Htab|]. split; [exact Hheap|exact Htemp].
Defined.

(** The same call: the temporary breakpoint that [next] installed for the
    deferred call, at 1296, is still installed when [next] has returned
    [GoroutineExitingError]; what [next] removed is the entry at 1280. *)
Lemma next_goroutine_exiting_keeps_defer_breakpoint :
  let E := Toy.externals Toy.exiting in
  let st := Toy.empty 300 in
  exists final p b,
    next E 2 (Location.mk 300 "main.go" 20 None) (FDE.mk 256 512) st
    = Some (Err (GoroutineExitingError 7), final)
    /\ Breakpoints st !! 1296 = None
    /\ Breakpoints final !! 1296 = Some p
    /\ heap final !! p = Some b
    /\ Breakpoint.Temp b = true
    /\ Breakpoint.Addr b = 1296
    /\ Breakpoints final !! 1280 = None.
Proof.
  cbv zeta. eexists _, _, _. split; [vm_compute; reflexivity|].
  vm_compute. repeat split; reflexivity.
Qed.

(** C6. The candidates of [cnext] against those of [next] on the frame
    [[256, 512)] of lib.c, whose line table has a PC at 512: [next]
    collects 272 and 304, [cnext] collects 512 as well, an address that the
    frame does not cover, and installs a temporary breakpoint there. *)
Theorem cnext_collects_frame_end :
  let E := Toy.externals Toy.native in
  let fde := FDE.mk 256 512 in
  next_pcs E (Location.mk 272 "lib.c" 3 None) fde = [272; 304]
  /\ cnext_pcs E fde "lib.c" = [272; 304; 512]
  /\ FDE.Cover fde 512 = false
  /\ fst (cnext E 272 fde "lib.c" (Toy.empty 272)) = Ok tt
  /\ is_Some (Breakpoints (snd (cnext E 272 fde "lib.c" (Toy.empty 272)))
               !! 512).
Proof.
  cbv zeta. repeat split; try reflexivity.
  vm_compute. eauto.
Qed.

(** Scenario B of the specification: the thread at 0x130 in the frame
    [[0x100, 0x200)], line PCs 0x110, 0x130 and 0x150, return address
    0x300: temporary breakpoints at 0x110, 0x150 and 0x300 exactly. *)
Example setNextBreakpoints_scenario_B :
  exists st',
    setNextBreakpoints (Toy.externals Toy.scenarioB) 0 (Toy.empty 304)
    = Some (Ok tt, st')
    /\ dom (Breakpoints st') = {[ 272; 336; 768 ]}.
Proof.
  eexists. split; [vm_compute; reflexivity|].
  apply set_eq. intros a. rewrite elem_of_dom. cbn.
  rewrite !elem_of_union, !elem_of_singleton.
  split.
  - intros [p Hp].
    destruct (decide (a = 272)) as [->|H1]; [auto|].
    destruct (decide (a = 336)) as [->|H2]; [auto|].
    destruct (decide (a = 768)) as [->|H3]; [auto|].
    exfalso. revert Hp.
    change (GMap _) with (<[768 := 3%positive]>
      (<[336 := 2%positive]> (<[272 := 1%positive]> (∅ : gmap Z ptr)))).
    rewrite !lookup_insert_ne by congruence. rewrite lookup_empty.
    discriminate.
  - intros [[-> | ->] | ->]; vm_compute; eauto.
Qed.


(** Scenario B again: the table has nothing at the current PC, 0x130, nor
    at 0x12f, before and after. *)
Lemma setNextTempBreakpoints_skips_current_witness :
  Breakpoints (snd (setNextTempBreakpoints (Toy.externals Toy.scenarioB) 304
                      [272; 304; 336; 768] (Toy.empty 304))) !! 304 = None
  /\ Breakpoints (snd (setNextTempBreakpoints (Toy.externals Toy.scenarioB) 304
                         [272; 303; 336; 768] (Toy.empty 304))) !! 303 = None.
Proof.
  split.
  - exact (proj1 (setNextTempBreakpoints_skips_current
                    (Toy.externals Toy.scenarioB) 304 [272; 304; 336; 768]
                    (Toy.empty 304))).
  - exact (proj1 (proj2 (setNextTempBreakpoints_skips_current
                           (Toy.externals Toy.scenarioB) 304
                           [272; 303; 336; 768] (Toy.empty 304)))).
Defined.

(** Scenario B with a user breakpoint already at 0x110: the setup returns
    [nil], 0x110 keeps its breakpoint and the return address gets one. *)
Lemma setNextTempBreakpoints_tolerates_existing_witness :
  fst (setNextTempBreakpoints (Toy.externals Toy.scenarioB) 304
         [272; 304; 336; 768] (Toy.stoppedAt 272 304)) = Ok tt
  /\ is_Some (Breakpoints
               (snd (setNextTempBreakpoints (Toy.externals Toy.scenarioB) 304
                       [272; 304; 336; 768] (Toy.stoppedAt 272 304))) !! 272)
  /\ is_Some (Breakpoints
               (snd (setNextTempBreakpoints (Toy.externals Toy.scenarioB) 304
                       [272; 304; 336; 768] (Toy.stoppedAt 272 304))) !! 768).
Proof.
  destruct (proj2 (proj2 (proj2 (setNextTempBreakpoints_tolerates_existing
                                   (Toy.externals Toy.scenarioB) 304)))
              [272; 304; 336; 768] (Toy.stoppedAt 272 304)
              (fun _ _ => eq_refl)) as [Hok Hin].
  split; [exact Hok|].
  split; apply Hin; cbn; auto 6.
Defined.

(** Scenario C of the specification, on the goroutine that is exiting:
    the deferred call is on line 10, line 11 has no code and line 12
    starts at 1296: the scan ends there with fuel 2. *)
Lemma scanDeferLine_terminates_iff_witness :
  scanDeferLine (Toy.externals Toy.exiting) 2 "main.go" 10 = Some 1296.
Proof.
  apply (proj1 (proj2 (proj2 (scanDeferLine_terminates_iff
                                (Toy.externals Toy.exiting) "main.go" 10)))
           12 1296 2%nat).
  - lia.
  - lia.
  - reflexivity.
  - intros m pc' Hm. assert (m = 11) as -> by lia. discriminate.
  - cbn. lia.
Defined.


(** * Further properties *)

Section MoreProperties.
Context {W : Type} (E : Externals W).
Implicit Types (st : State W).

(** ** threadResume: the thread record afterwards *)

(** X1. A resume that gets past the clearing of the trap (the thread has
    no current breakpoint, or [bp.Clear] succeeds) leaves the thread with
    no current breakpoint and no condition result or error.  After a
    single step [singleStepping] and [running] are both false, whatever
    the step returned; after a continue, and after the panic of an
    unknown mode, [running] is left true. *)
Theorem threadResume_thread_after mode sig st :
  Thread.CurrentBreakpoint (thread st) = None
  \/ (exists bp b w1,
        Thread.CurrentBreakpoint (thread st) = Some bp
        /\ heap st !! bp = Some b
        /\ bp_Clear E (inferior st) b = (None, w1)) ->
  let r := threadResume E mode sig st in
  Thread.ID (thread (snd r)) = Thread.ID (thread st)
  /\ Thread.CurrentBreakpoint (thread (snd r)) = None
  /\ Thread.BreakpointConditionMet (thread (snd r)) = false
  /\ Thread.BreakpointConditionError (thread (snd r)) = None
  /\ match mode with
     | ModeStepInstruction =>
         Thread.singleStepping (thread (snd r)) = false
         /\ Thread.running (thread (snd r)) = false
     | ModeResume =>
         Thread.singleStepping (thread (snd r))
         = Thread.singleStepping (thread st)
         /\ Thread.running (thread (snd r)) = true
     | ModeOther _ =>
         fst r = Panic "unknown mode passed to threadResume"
         /\ Thread.running (thread (snd r)) = true
     end.
Proof.
  intros Hcase. cbv zeta.
  assert (Hrestore : forall bp st0,
            thread (restoreBreakpoint E bp st0) = thread st0).
  { intros bp st0. unfold restoreBreakpoint.
    destruct (heap st0 !! bp) as [b|]; [|reflexivity].
    destruct (createAndWriteBreakpoint E (inferior st0) (restoreLocation E b)
                (Breakpoint.Temp b) (arch_BreakpointInstruction E))
      as [[nerr|] w]; reflexivity. }
  assert (Hfst : forall bp (p : result unit * State W),
            fst (let '(r0, st') := p in (r0, restoreBreakpoint E bp st'))
            = fst p) by (intros bp [r0 st']; reflexivity).
  assert (Hthread : forall bp (p : result unit * State W),
            thread (snd (let '(r0, st') := p in
                         (r0, restoreBreakpoint E bp st')))
            = thread (snd p))
    by (intros bp [r0 st']; apply Hrestore).
  unfold threadResume.
  destruct Hcase as [Hnone | (bp & b & w1 & Hcur & Hheap & Hclear)].
  - rewrite Hnone. unfold resumeSwitch. destruct mode; cbn.
    + destruct (thread_singleStep E (inferior st)). cbn. auto 10.
    + destruct (thread_resumeWithSig E (inferior st) sig). cbn. auto 10.
    + auto 10.
  - rewrite Hcur, Hheap, Hclear, Hthread, Hfst.
    unfold resumeSwitch. destruct mode; cbn.
    + destruct (thread_singleStep E w1). cbn. auto 10.
    + destruct (thread_resumeWithSig E w1 sig). cbn. auto 10.
    + auto 10.
Qed.

(** ** GetG *)

(** X3. Before the offset of the goroutine pointer in thread-local
    storage is known, [GetG] fails with "g struct offset not initialized"
    as soon as the registers are read: the memory of the process, the
    type table and the decoder have no part in the result. *)
Theorem GetG_offset_uninitialized st regs :
  thread_Registers E (inferior st) = inr regs ->
  arch_GStructOffset E = 0 ->
  GetG E st = Err (errorString "g struct offset not initialized").
Proof.
  intros Hregs Hoff. unfold GetG, getGVariable. rewrite Hregs, Hoff.
  reflexivity.
Qed.

(** X4. When the read of the goroutine slot returns fewer than eight
    bytes, [GetG] panics in [binary.LittleEndian.Uint64]: no error is
    returned. *)
Theorem GetG_short_read_panics st regs gaddrbs :
  thread_Registers E (inferior st) = inr regs ->
  arch_GStructOffset E <> 0 ->
  thread_readMemory E (inferior st)
    (add64 (TLS regs) (arch_GStructOffset E)) (arch_PtrSize E)
  = inr gaddrbs ->
  (length gaddrbs < 8)%nat ->
  GetG E st = Panic "index out of range".
Proof.
  intros Hregs Hoff Hread Hlen. unfold GetG, getGVariable.
  apply Z.eqb_neq in Hoff. rewrite Hregs, Hoff, Hread.
  do 8 (destruct gaddrbs as [|? gaddrbs]; [reflexivity|]).
  cbn in Hlen. lia.
Qed.

(** X5. A goroutine that [GetG] returns carries the id of the resolving
    thread as its back-reference, and is what the decoder made of the
    address stored, little-endian, at [TLS + GStructOffset]: read as a
    [runtime.g] named "runtime.curg", or on windows through an unnamed
    pointer to [runtime.g]. *)
Theorem GetG_resolved st g :
  GetG E st = Ok g ->
  G.thread g = Some (Thread.ID (thread st))
  /\ exists regs gaddrbs gaddr typ g0,
       thread_Registers E (inferior st) = inr regs
       /\ arch_GStructOffset E <> 0
       /\ thread_readMemory E (inferior st)
            (add64 (TLS regs) (arch_GStructOffset E)) (arch_PtrSize E)
          = inr gaddrbs
       /\ LittleEndian_Uint64 gaddrbs = Some gaddr
       /\ dbp_findType E "runtime.g" = inr typ
       /\ parseG E (inferior st)
            (if String.eqb (GOOS E) "windows"
             then Variable_.mk "" gaddr (PtrType (arch_PtrSize E) typ)
             else Variable_.mk "runtime.curg" gaddr typ)
          = inr g0
       /\ G.ID g = G.ID g0
       /\ G.DeferPC g = G.DeferPC g0.
Proof.
  unfold GetG, getGVariable, newGVariable.
  destruct (thread_Registers E (inferior st)) as [e|regs]; [discriminate|].
  destruct (arch_GStructOffset E =? 0) eqn:Hoff; [discriminate|].
  apply Z.eqb_neq in Hoff.
  destruct (thread_readMemory E (inferior st)
              (add64 (TLS regs) (arch_GStructOffset E)) (arch_PtrSize E))
    as [e|gaddrbs] eqn:Hread; [discriminate|].
  destruct (LittleEndian_Uint64 gaddrbs) as [gaddr|] eqn:Hle; [|discriminate].
  destruct (dbp_findType E "runtime.g") as [e|typ] eqn:Htyp; [discriminate|].
  destruct (String.eqb (GOOS E) "windows") eqn:Hos.
  - destruct (parseG E (inferior st) _) as [e|g0] eqn:Hparse; [discriminate|].
    intros [= <-]. split; [reflexivity|].
    exists regs, gaddrbs, gaddr, typ, g0. auto 10.
  - destruct (parseG E (inferior st) _) as [e|g0] eqn:Hparse; [discriminate|].
    intros [= <-]. split; [reflexivity|].
    exists regs, gaddrbs, gaddr, typ, g0. auto 10.
Qed.

(** ** SetCurrentBreakpoint: what a breakpoint hit leaves behind *)

(** X6. When the PC cannot be rewound (the registers cannot be read, or
    the write fails), [SetCurrentBreakpoint] returns that error with the
    breakpoint already recorded as current: the condition is not
    evaluated ([BreakpointConditionMet] and [BreakpointConditionError]
    keep their old values) and no counter moves. *)
Theorem SetCurrentBreakpoint_rewind_fails st pc bp b e :
  thread_PC E (inferior st) = inr pc ->
  Breakpoints st !! sub64 pc (u64 (arch_BreakpointSize E)) = Some bp ->
  heap st !! bp = Some b ->
  thread_Registers E (inferior st) = inl e
  \/ (exists regs,
        thread_Registers E (inferior st) = inr regs
        /\ fst (regs_SetPC E (inferior st) regs (Breakpoint.Addr b)) = Some e) ->
  let r := SetCurrentBreakpoint E st in
  fst r = Err e
  /\ Thread.CurrentBreakpoint (thread (snd r)) = Some bp
  /\ Thread.BreakpointConditionMet (thread (snd r))
     = Thread.BreakpointConditionMet (thread st)
  /\ Thread.BreakpointConditionError (thread (snd r))
     = Thread.BreakpointConditionError (thread st)
  /\ heap (snd r) = heap st
  /\ Breakpoints (snd r) = Breakpoints st.
Proof.
  intros Hpc Hkey Hheap Hfail. cbv zeta.
  unfold SetCurrentBreakpoint. rewrite Hpc, Hkey. cbn. rewrite Hheap.
  unfold SetPC. cbn.
  destruct Hfail as [Hregs | (regs & Hregs & Hset)]; rewrite Hregs.
  - cbn. auto 10.
  - destruct (regs_SetPC E (inferior st) regs (Breakpoint.Addr b))
      as [err w']. cbn in Hset. subst err. cbn. auto 10.
Qed.

(** X7. After a breakpoint hit whose PC rewind succeeds, the thread is on
    a triggered breakpoint exactly when the condition evaluated to true,
    and on a triggered temporary breakpoint exactly when, in addition,
    the breakpoint hit is a temporary one; the error of the evaluation is
    recorded and does not enter either predicate. *)
Theorem SetCurrentBreakpoint_triggered st pc bp b regs w' met cerr :
  thread_PC E (inferior st) = inr pc ->
  Breakpoints st !! sub64 pc (u64 (arch_BreakpointSize E)) = Some bp ->
  heap st !! bp = Some b ->
  thread_Registers E (inferior st) = inr regs ->
  regs_SetPC E (inferior st) regs (Breakpoint.Addr b) = (None, w') ->
  bp_checkCondition E w' b = (met, cerr) ->
  let st' := snd (SetCurrentBreakpoint E st) in
  Thread.BreakpointConditionMet (thread st') = met
  /\ Thread.BreakpointConditionError (thread st') = cerr
  /\ onTriggeredBreakpoint st' = met
  /\ onTriggeredTempBreakpoint st' = met && Breakpoint.Temp b.
Proof.
  intros Hpc Hkey Hheap Hregs Hset Hcond. cbv zeta.
  unfold SetCurrentBreakpoint. rewrite Hpc, Hkey. cbn. rewrite Hheap.
  unfold SetPC. cbn. rewrite Hregs, Hset. cbn. rewrite Hcond.
  unfold onTriggeredBreakpoint at 1. cbn.
  destruct met.
  - match goal with |- context [GetG E ?s] => destruct (GetG E s) as [g|e|m] end.
    + unfold incHitCount. cbn. rewrite Hheap.
      destruct (Breakpoint.HitCount b).
      * unfold incTotalHitCount. cbn. rewrite lookup_insert_eq. cbn.
        unfold onTriggeredTempBreakpoint, onTriggeredBreakpoint. cbn.
        rewrite lookup_insert_eq. cbn. auto.
      * unfold onTriggeredTempBreakpoint, onTriggeredBreakpoint. cbn.
        rewrite Hheap. auto.
    + unfold incTotalHitCount. cbn. rewrite Hheap. cbn.
      unfold onTriggeredTempBreakpoint, onTriggeredBreakpoint. cbn.
      rewrite lookup_insert_eq. cbn. auto.
    + unfold onTriggeredTempBreakpoint, onTriggeredBreakpoint. cbn.
      rewrite Hheap. auto.
  - unfold onTriggeredTempBreakpoint, onTriggeredBreakpoint. cbn. auto.
Qed.

(** X8. A breakpoint whose [HitCount] map is nil, as [new(Breakpoint)]
    leaves it, makes [SetCurrentBreakpoint] panic on the increment of the
    goroutine's counter when its condition is true and the goroutine is
    resolved; no counter has moved at that point. *)
Theorem SetCurrentBreakpoint_nil_HitCount_panics st pc bp b regs w' cerr g :
  thread_PC E (inferior st) = inr pc ->
  Breakpoints st !! sub64 pc (u64 (arch_BreakpointSize E)) = Some bp ->
  heap st !! bp = Some b ->
  Breakpoint.HitCount b = None ->
  thread_Registers E (inferior st) = inr regs ->
  regs_SetPC E (inferior st) regs (Breakpoint.Addr b) = (None, w') ->
  bp_checkCondition E w' b = (true, cerr) ->
  GetG E (with_inferior w' st) = Ok g ->
  fst (SetCurrentBreakpoint E st) = Panic "assignment to entry in nil map"
  /\ heap (snd (SetCurrentBreakpoint E st)) = heap st.
Proof.
  intros Hpc Hkey Hheap Hnil Hregs Hset Hcond HG.
  unfold SetCurrentBreakpoint. rewrite Hpc, Hkey. cbn. rewrite Hheap.
  unfold SetPC. cbn. rewrite Hregs, Hset. cbn. rewrite Hcond.
  unfold onTriggeredBreakpoint. cbn.
  match goal with |- context [GetG E ?s] =>
    rewrite (GetG_ext E s (with_inferior w' st) eq_refl eq_refl) end.
  rewrite HG. unfold incHitCount. cbn. rewrite Hheap, Hnil. auto.
Qed.
End MoreProperties.

Section StepOverProperties.
Context {W : Type} (E : Externals W).
Implicit Types (st : State W).

(** ** What the installer keeps *)

Lemma SetTempBreakpoint_heap_kept addr st p b :
  heap st !! p = Some b ->
  heap (snd (SetTempBreakpoint E addr st)) !! p = Some b.
Proof.
  intros Hp. unfold SetTempBreakpoint.
  destruct (Breakpoints st !! addr); [exact Hp|].
  destruct (writeSoftwareBreakpoint E (inferior st) addr) as [[e|] w];
    [exact Hp|].
  destruct (Dwarf_PCToLine E addr) as [[f l] fn]. cbn.
  rewrite lookup_insert_ne; [exact Hp|].
  intros <-. apply (is_fresh (dom (heap st))).
  apply elem_of_dom. eauto.
Qed.

Lemma SetTempBreakpoint_table_kept addr st a p :
  Breakpoints st !! a = Some p ->
  Breakpoints (snd (SetTempBreakpoint E addr st)) !! a = Some p.
Proof.
  intros Ha. destruct (decide (a = addr)) as [->|Hne].
  - rewrite (SetTempBreakpoint_exists E addr st p Ha). exact Ha.
  - rewrite SetTempBreakpoint_table_other by exact Hne. exact Ha.
Qed.

(** An entry that the installer adds is at the address asked for and
    points to a new temporary breakpoint for that address. *)
Lemma SetTempBreakpoint_new_entry addr st a p :
  Breakpoints st !! a = None ->
  Breakpoints (snd (SetTempBreakpoint E addr st)) !! a = Some p ->
  a = addr
  /\ exists b, heap (snd (SetTempBreakpoint E addr st)) !! p = Some b
               /\ Breakpoint.Temp b = true
               /\ Breakpoint.Addr b = a.
Proof.
  intros Hnone. destruct (decide (a = addr)) as [->|Hne].
  - unfold SetTempBreakpoint. rewrite Hnone.
    destruct (writeSoftwareBreakpoint E (inferior st) addr) as [[e|] w];
      [cbn; congruence|].
    destruct (Dwarf_PCToLine E addr) as [[f l] fn]. cbn.
    rewrite lookup_insert_eq. intros [= <-]. split; [reflexivity|].
    eexists. rewrite lookup_insert_eq. split; [reflexivity|].
    split; reflexivity.
  - rewrite SetTempBreakpoint_table_other by exact Hne. congruence.
Qed.

Lemma SetTempBreakpoint_keyed addr st a :
  keyed_at a st -> keyed_at a (snd (SetTempBreakpoint E addr st)).
Proof.
  intros Hkeyed p Hp.
  destruct (Breakpoints st !! a) as [p0|] eqn:Ha.
  - rewrite (SetTempBreakpoint_table_kept addr st a p0 Ha) in Hp.
    injection Hp as <-. destruct (Hkeyed p0 Ha) as (b & Hb & Haddr).
    exists b. split; [|exact Haddr].
    apply SetTempBreakpoint_heap_kept. exact Hb.
  - destruct (SetTempBreakpoint_new_entry addr st a p Ha Hp)
      as (_ & b & Hb & _ & Haddr).
    exists b. split; assumption.
Qed.

(** What one iteration of the loop of [setNextTempBreakpoints] does to a
    property of states that the installer maintains. *)
Lemma setNextTempBreakpoints_maintains (P : State W -> Prop) curpc pcs st :
  (forall addr st0, P st0 -> P (snd (SetTempBreakpoint E addr st0))) ->
  P st -> P (snd (setNextTempBreakpoints E curpc pcs st)).
Proof.
  intros Hstep. revert st.
  induction pcs as [|pc rest IH]; intros st Hst; cbn; [exact Hst|].
  destruct ((pc =? curpc) || (pc =? sub64 curpc 1)); [apply IH; exact Hst|].
  pose proof (Hstep pc st Hst) as Hst'.
  destruct (SetTempBreakpoint E pc st) as [[p|e|m] st']; cbn in Hst'.
  - apply IH. exact Hst'.
  - destruct (isBreakpointExistsError e); cbn; [apply IH|]; exact Hst'.
  - exact Hst'.
Qed.

(** X9. Step-over setup only adds: an entry of the breakpoint table is
    still there afterwards, pointing to the same breakpoint object, and
    every breakpoint object is as it was, whatever the targets and
    whether or not the setup succeeds. *)
Theorem setNextTempBreakpoints_keeps_breakpoints curpc pcs st :
  let st' := snd (setNextTempBreakpoints E curpc pcs st) in
  (forall a p, Breakpoints st !! a = Some p -> Breakpoints st' !! a = Some p)
  /\ (forall p b, heap st !! p = Some b -> heap st' !! p = Some b).
Proof.
  cbv zeta. split.
  - intros a p Ha.
    apply (setNextTempBreakpoints_maintains
             (fun s => Breakpoints s !! a = Some p)); [|exact Ha].
    intros addr st0. apply SetTempBreakpoint_table_kept.
  - intros p b Hp.
    apply (setNextTempBreakpoints_maintains
             (fun s => heap s !! p = Some b)); [|exact Hp].
    intros addr st0. apply SetTempBreakpoint_heap_kept.
Qed.

(** X10. Every entry that step-over setup adds to the table is at one of
    the targets, not the current PC nor the current PC minus one, and
    points to a temporary breakpoint whose address is the key. *)
Theorem setNextTempBreakpoints_adds_temporary curpc pcs st a p :
  Breakpoints st !! a = None ->
  Breakpoints (snd (setNextTempBreakpoints E curpc pcs st)) !! a = Some p ->
  In a pcs /\ a <> curpc /\ a <> sub64 curpc 1
  /\ exists b, heap (snd (setNextTempBreakpoints E curpc pcs st)) !! p = Some b
               /\ Breakpoint.Temp b = true
               /\ Breakpoint.Addr b = a.
Proof.
  revert st. induction pcs as [|pc rest IH]; intros st Hnone; cbn.
  { congruence. }
  destruct ((pc =? curpc) || (pc =? sub64 curpc 1)) eqn:Hskip.
  { intros Hp. destruct (IH st Hnone Hp) as (Hin & H1 & H2 & Hb). auto. }
  assert (Hcase : forall st',
            st' = snd (SetTempBreakpoint E pc st) ->
            Breakpoints (snd (setNextTempBreakpoints E curpc rest st')) !! a
            = Some p ->
            In a (pc :: rest) /\ a <> curpc /\ a <> sub64 curpc 1
            /\ exists b,
                 heap (snd (setNextTempBreakpoints E curpc rest st')) !! p
                 = Some b
                 /\ Breakpoint.Temp b = true /\ Breakpoint.Addr b = a).
  { intros st' -> Hp.
    destruct (Breakpoints (snd (SetTempBreakpoint E pc st)) !! a)
      as [p0|] eqn:Hmid.
    - destruct (SetTempBreakpoint_new_entry pc st a p0 Hnone Hmid)
        as (-> & b & Hb & Htemp & Haddr).
      destruct (setNextTempBreakpoints_keeps_breakpoints curpc rest
                  (snd (SetTempBreakpoint E pc st))) as [Htab Hheap].
      rewrite (Htab pc p0 Hmid) in Hp. injection Hp as <-.
      apply skipped_current in Hskip as [H1 H2].
      split; [left; reflexivity|]. split; [exact H1|]. split; [exact H2|].
      exists b. split; [apply Hheap; exact Hb|]. split; assumption.
    - destruct (IH _ Hmid Hp) as (Hin & H1 & H2 & Hb).
      split; [right; exact Hin|]. auto. }
  pose proof (SetTempBreakpoint_new_entry pc st a p Hnone) as Hnew.
  destruct (SetTempBreakpoint E pc st) as [[p0|e|m] st'] eqn:Hset;
    cbn in Hnew.
  - apply Hcase. reflexivity.
  - destruct (isBreakpointExistsError e); [apply Hcase; reflexivity|].
    cbn. intros Hp. destruct (Hnew Hp) as (-> & Hb).
    apply skipped_current in Hskip as [H1 H2].
    split; [left; reflexivity|]. auto.
  - cbn. intros Hp. destruct (Hnew Hp) as (-> & Hb).
    apply skipped_current in Hskip as [H1 H2].
    split; [left; reflexivity|]. auto.
Qed.

(** With a trap writer that keeps to its own errors, the installer
    leaves an entry at the address whenever it returns [nil] or
    [BreakpointExistsError]. *)
Lemma SetTempBreakpoint_entry addr st :
  writer_errors_foreign E ->
  match fst (SetTempBreakpoint E addr st) with
  | Ok _ => True
  | Err e => isBreakpointExistsError e = true
  | Panic _ => False
  end ->
  is_Some (Breakpoints (snd (SetTempBreakpoint E addr st)) !! addr).
Proof.
  intros Hw. unfold SetTempBreakpoint.
  destruct (Breakpoints st !! addr) as [p|] eqn:Hp; [cbn; rewrite Hp; eauto|].
  specialize (Hw (inferior st) addr).
  destruct (writeSoftwareBreakpoint E (inferior st) addr) as [[e|] w].
  - cbn. intros He. rewrite (Hw e eq_refl) in He. discriminate.
  - destruct (Dwarf_PCToLine E addr) as [[f l] fn]. cbn.
    rewrite lookup_insert_eq. eauto.
Qed.

(** X11. Whenever step-over setup returns [nil], every target other than
    the current PC and the current PC minus one has a breakpoint, given
    that the trap writer does not itself report [BreakpointExistsError]. *)
Theorem setNextTempBreakpoints_ok_installs_all curpc pcs st :
  writer_errors_foreign E ->
  fst (setNextTempBreakpoints E curpc pcs st) = Ok tt ->
  forall pc, In pc pcs ->
    (pc =? curpc) || (pc =? sub64 curpc 1) = false ->
    is_Some (Breakpoints (snd (setNextTempBreakpoints E curpc pcs st)) !! pc).
Proof.
  intros Hw. revert st.
  induction pcs as [|pc rest IH]; intros st Hok pc' Hin Hskip'; [destruct Hin|].
  cbn in Hok |- *.
  destruct ((pc =? curpc) || (pc =? sub64 curpc 1)) eqn:Hskip.
  { destruct Hin as [<- | Hin]; [congruence|]. apply IH; assumption. }
  pose proof (SetTempBreakpoint_entry pc st Hw) as Hentry.
  destruct (SetTempBreakpoint E pc st) as [[p|e|m] st'] eqn:Hset;
    cbn in Hentry.
  - destruct Hin as [<- | Hin]; [|apply IH; assumption].
    destruct (Hentry I) as [q Hq].
    destruct (setNextTempBreakpoints_keeps_breakpoints curpc rest st')
      as [Htab _].
    rewrite (Htab pc q Hq). eauto.
  - destruct (isBreakpointExistsError e) eqn:He; [|discriminate].
    destruct Hin as [<- | Hin]; [|apply IH; assumption].
    destruct (Hentry eq_refl) as [q Hq].
    destruct (setNextTempBreakpoints_keeps_breakpoints curpc rest st')
      as [Htab _].
    rewrite (Htab pc q Hq). eauto.
  - discriminate.
Qed.

(** When every target that is not skipped has an entry already, the
    setup returns [nil] and changes nothing. *)
Lemma setNextTempBreakpoints_all_present curpc pcs st :
  (forall pc, In pc pcs ->
     (pc =? curpc) || (pc =? sub64 curpc 1) = false ->
     is_Some (Breakpoints st !! pc)) ->
  setNextTempBreakpoints E curpc pcs st = (Ok tt, st).
Proof.
  induction pcs as [|pc rest IH]; intros Hall; cbn; [reflexivity|].
  assert (Hrest : forall pc', In pc' rest ->
            (pc' =? curpc) || (pc' =? sub64 curpc 1) = false ->
            is_Some (Breakpoints st !! pc'))
    by (intros pc' Hin; apply Hall; right; exact Hin).
  destruct ((pc =? curpc) || (pc =? sub64 curpc 1)) eqn:Hskip;
    [apply IH; exact Hrest|].
  destruct (Hall pc (or_introl eq_refl) Hskip) as [p Hp].
  rewrite (SetTempBreakpoint_exists E pc st p Hp). cbn.
  apply IH. exact Hrest.
Qed.

(** X12. Step-over setup can be repeated: after a run that returned
    [nil], a second run over the same targets returns [nil] and leaves
    the state as the first run left it (table, breakpoint objects and
    traced process), given that the trap writer does not itself report
    [BreakpointExistsError]. *)
Theorem setNextTempBreakpoints_idempotent curpc pcs st st' :
  writer_errors_foreign E ->
  setNextTempBreakpoints E curpc pcs st = (Ok tt, st') ->
  setNextTempBreakpoints E curpc pcs st' = (Ok tt, st').
Proof.
  intros Hw Hrun. apply setNextTempBreakpoints_all_present.
  intros pc Hin Hskip.
  pose proof (setNextTempBreakpoints_ok_installs_all curpc pcs st Hw) as Hall.
  rewrite Hrun in Hall. apply Hall; [reflexivity|exact Hin|exact Hskip].
Qed.
End StepOverProperties.

Section NextProperties.
Context {W : Type} (E : Externals W).
Implicit Types (st : State W).

(** ** next, cnext and setNextBreakpoints *)

Lemma nextFromReturnAddress_maintains (P : State W -> Prop) curloc fde pcs st :
  (forall addr st0, P st0 -> P (snd (SetTempBreakpoint E addr st0))) ->
  P st -> P (snd (nextFromReturnAddress E curloc fde pcs st)).
Proof.
  intros Hstep Hst. unfold nextFromReturnAddress.
  destruct (thread_ReturnAddress E (inferior st)) as [e|ret]; [exact Hst|].
  match goal with |- context [if ?c then _ else _] => destruct c end.
  - destruct (GetG E st); exact Hst.
  - apply setNextTempBreakpoints_maintains; assumption.
Qed.

Lemma cnext_maintains (P : State W -> Prop) curpc fde file st :
  (forall addr st0, P st0 -> P (snd (SetTempBreakpoint E addr st0))) ->
  P st -> P (snd (cnext E curpc fde file st)).
Proof.
  intros Hstep Hst. unfold cnext.
  destruct (thread_ReturnAddress E (inferior st)) as [e|ret]; [exact Hst|].
  apply setNextTempBreakpoints_maintains; assumption.
Qed.

(** A property of states that the installer, the placing of the
    placeholder and its removal maintain is maintained by [next]. *)
Lemma next_maintains (P : State W -> Prop) fuel curloc fde st g r st' :
  GetG E st = Ok g ->
  next E fuel curloc fde st = Some (r, st') ->
  (forall addr st0, P st0 -> P (snd (SetTempBreakpoint E addr st0))) ->
  (G.DeferPC g <> 0 ->
   P st ->
   P (with_Breakpoints
        (<[G.DeferPC g := fresh (dom (heap st))]> (Breakpoints st))
        (with_heap (<[fresh (dom (heap st)) := Breakpoint.zero]> (heap st))
           st))) ->
  (G.DeferPC g <> 0 ->
   forall st0, P st0 -> P (deleteBreakpoint (G.DeferPC g) st0)) ->
  P st -> P st'.
Proof.
  intros HG Hnext Hstep Hfake Hdel Hst. unfold next in Hnext.
  rewrite HG in Hnext.
  destruct (G.DeferPC g =? 0) eqn:Hdefer.
  - injection Hnext as Hnext.
    pose proof (nextFromReturnAddress_maintains P curloc fde
                  (next_pcs E curloc fde) st Hstep Hst) as Hres.
    rewrite Hnext in Hres. exact Hres.
  - apply Z.eqb_neq in Hdefer.
    unfold setDeferBreakpoint in Hnext.
    destruct (Dwarf_PCToLine E (G.DeferPC g)) as [[f lineno] fn].
    destruct (scanDeferLine E fuel f lineno) as [dpc|]; [|discriminate].
    specialize (Hfake Hdefer Hst).
    pose proof (Hstep dpc _ Hfake) as Hst2.
    destruct (SetTempBreakpoint E dpc _) as [[q|e|m] st2]; cbn in Hst2.
    + pose proof (nextFromReturnAddress_maintains P curloc fde
                    (next_pcs E curloc fde) st2 Hstep Hst2) as Hst3.
      destruct (nextFromReturnAddress E curloc fde (next_pcs E curloc fde) st2)
        as [r' st3]. cbn in Hst3. injection Hnext as _ <-.
      apply Hdel; assumption.
    + injection Hnext as _ <-. apply Hdel; assumption.
    + injection Hnext as _ <-. apply Hdel; assumption.
Qed.

(** X13. What [next] does to the breakpoint table of its caller.  Every
    entry at an address other than the deferred call of the goroutine is
    kept, pointing to the same object, and every breakpoint object is as
    it was; but when the goroutine has a deferred call, the table has no
    entry at [g.DeferPC] when [next] returns, with any result: a
    breakpoint that was there before the call is gone from the table. *)
Theorem next_keeps_breakpoints fuel curloc fde st g r st' :
  GetG E st = Ok g ->
  next E fuel curloc fde st = Some (r, st') ->
  (forall a p, G.DeferPC g = 0 \/ a <> G.DeferPC g ->
     Breakpoints st !! a = Some p -> Breakpoints st' !! a = Some p)
  /\ (G.DeferPC g <> 0 -> Breakpoints st' !! G.DeferPC g = None)
  /\ (forall p b, heap st !! p = Some b -> heap st' !! p = Some b).
Proof.
  intros HG Hnext. split; [|split].
  - intros a p Ha Hp.
    apply (next_maintains (fun s => Breakpoints s !! a = Some p)
             fuel curloc fde st g r st' HG Hnext); [| | |exact Hp].
    + intros addr st0. apply SetTempBreakpoint_table_kept.
    + intros Hdefer Hst. cbn. rewrite lookup_insert_ne; [exact Hst|].
      destruct Ha; congruence.
    + intros Hdefer st0 Hst0. cbn. rewrite lookup_delete_ne; [exact Hst0|].
      destruct Ha; congruence.
  - intros Hdefer. unfold next in Hnext. rewrite HG in Hnext.
    pose proof Hdefer as Hneq. apply Z.eqb_neq in Hneq. rewrite Hneq in Hnext.
    destruct (setDeferBreakpoint E fuel g st) as [[r0 st2]|]; [|discriminate].
    destruct r0 as [[]|e|m];
      [destruct (nextFromReturnAddress E curloc fde
                   (next_pcs E curloc fde) st2) as [r' st3]| |];
      injection Hnext as _ <-; apply lookup_delete_eq.
  - intros p b Hp.
    apply (next_maintains (fun s => heap s !! p = Some b)
             fuel curloc fde st g r st' HG Hnext); [| | |exact Hp].
    + intros addr st0. apply SetTempBreakpoint_heap_kept.
    + intros Hdefer Hst. cbn. rewrite lookup_insert_ne; [exact Hst|].
      intros <-. apply (is_fresh (dom (heap st))).
      apply elem_of_dom. eauto.
    + intros Hdefer st0 Hst0. exact Hst0.
Qed.

(** X14. The breakpoint already on the first line of the deferred call
    is not tolerated as the ones at the candidates are: when the line
    that the scan finds has an entry in the table (or is the deferred
    call itself), [next] fails with [BreakpointExistsError]; no
    candidate is installed, the traced process is untouched and the
    table is left without its entry at [g.DeferPC]. *)
Theorem next_defer_breakpoint_exists
    fuel curloc fde st g f lineno fn dpc :
  GetG E st = Ok g ->
  G.DeferPC g <> 0 ->
  Dwarf_PCToLine E (G.DeferPC g) = (f, lineno, fn) ->
  scanDeferLine E fuel f lineno = Some dpc ->
  dpc = G.DeferPC g \/ is_Some (Breakpoints st !! dpc) ->
  exists st',
    next E fuel curloc fde st = Some (Err (BreakpointExistsError dpc), st')
    /\ Breakpoints st' = delete (G.DeferPC g) (Breakpoints st)
    /\ inferior st' = inferior st.
Proof.
  intros HG Hdefer Hline Hscan Hexists.
  unfold next. rewrite HG. pose proof Hdefer as Hneq.
  apply Z.eqb_neq in Hneq. rewrite Hneq.
  unfold setDeferBreakpoint. rewrite Hline, Hscan.
  unfold SetTempBreakpoint. cbn.
  assert (Hentry : is_Some ((<[G.DeferPC g := fresh (dom (heap st))]>
                               (Breakpoints st)) !! dpc)).
  { destruct Hexists as [-> | [p Hp]].
    - rewrite lookup_insert_eq. eauto.
    - destruct (decide (dpc = G.DeferPC g)) as [->|Hne].
      + rewrite lookup_insert_eq. eauto.
      + rewrite lookup_insert_ne by congruence. eauto. }
  destruct Hentry as [q Hq]. rewrite Hq. cbn.
  eexists. split; [reflexivity|]. cbn. split; [|reflexivity].
  apply delete_insert_eq.
Qed.

(** The [covered] flag that [next] computes over its candidates is set
    exactly when there is a candidate. *)
Theorem next_covered_iff_candidates curloc fde :
  0 < FDE.End fde <= 2 ^ 64 ->
  existsb (FDE.Cover fde) (next_pcs E curloc fde) = true
  <-> next_pcs E curloc fde <> [].
Proof.
  intros Hend. rewrite existsb_exists. split.
  - intros (pc & Hin & _) Hnil. rewrite Hnil in Hin. destruct Hin.
  - intros Hne. destruct (next_pcs E curloc fde) as [|pc rest] eqn:Hpcs;
      [congruence|].
    exists pc. split; [left; reflexivity|].
    assert (Hin : In pc (next_pcs E curloc fde))
      by (rewrite Hpcs; left; reflexivity).
    apply (next_pcs_range E curloc fde pc Hend) in Hin as [_ Hrange].
    unfold FDE.Cover, FDE.Begin, FDE.End in *.
    apply andb_true_iff. split; lia.
Qed.

(** X16. [setNextBreakpoints] on a thread that is not blocked: when the
    PC cannot be read, or no frame descriptor covers it, the error is
    returned as it is, whatever the fuel, and the state is the one of
    the call: nothing is installed. *)
Theorem setNextBreakpoints_lookup_error fuel st e :
  thread_blocked E (inferior st) = false ->
  thread_PC E (inferior st) = inl e
  \/ (exists pc, thread_PC E (inferior st) = inr pc
                 /\ Frame_FDEForPC E pc = inl e) ->
  setNextBreakpoints E fuel st = Some (Err e, st).
Proof.
  intros Hblocked Hfail. unfold setNextBreakpoints, Location_.
  rewrite Hblocked.
  destruct Hfail as [Hpc | (pc & Hpc & Hfde)]; rewrite Hpc; [reflexivity|].
  destruct (Dwarf_PCToLine E pc) as [[f l] fn]. cbn. rewrite Hfde.
  reflexivity.
Qed.

(** X17. Step-over setup keeps the table keyed by address: an address
    whose entry, if any, points to a breakpoint with that address before
    [setNextBreakpoints] is such an address afterwards, whether the
    setup goes through [next] or [cnext] and whatever it returns; the
    placeholder that [next] puts at the deferred call, whose address
    field is zero, is gone by then. *)
Theorem setNextBreakpoints_keyed fuel st r st' a :
  keyed_at a st ->
  setNextBreakpoints E fuel st = Some (r, st') ->
  keyed_at a st'.
Proof.
  intros Hkeyed. unfold setNextBreakpoints.
  destruct (thread_blocked E (inferior st)); [intros [= _ <-]; exact Hkeyed|].
  destruct (Location_ E st) as [loc|e|m];
    [|intros [= _ <-]; exact Hkeyed|intros [= _ <-]; exact Hkeyed].
  destruct (Frame_FDEForPC E (Location.PC loc)) as [e|fde];
    [intros [= _ <-]; exact Hkeyed|].
  destruct (String.eqb (filepath_Ext (Location.File loc)) ".go").
  - intros Hnext. destruct (GetG E st) as [g|e|m] eqn:HG.
    + destruct (decide (G.DeferPC g <> 0 /\ a = G.DeferPC g))
        as [[Hdefer ->]|Hother].
      * destruct (next_keeps_breakpoints fuel loc fde st g r st' HG Hnext)
          as (_ & Hgone & _).
        intros p Hp. rewrite (Hgone Hdefer) in Hp. discriminate.
      * apply (next_maintains (keyed_at a) fuel loc fde st g r st' HG Hnext);
          [| | |exact Hkeyed].
        -- intros addr st0. apply SetTempBreakpoint_keyed.
        -- intros Hdefer Hst p. cbn.
           rewrite lookup_insert_ne by (intros Heq; apply Hother; auto).
           intros Hp. destruct (Hst p Hp) as (b & Hb & Haddr).
           exists b. split; [|exact Haddr].
           rewrite lookup_insert_ne; [exact Hb|].
           intros <-. apply (is_fresh (dom (heap st))).
           apply elem_of_dom. eauto.
        -- intros Hdefer st0 Hst0 p. cbn.
           rewrite lookup_delete_ne by (intros Heq; apply Hother; auto).
           apply Hst0.
    + unfold next in Hnext. rewrite HG in Hnext.
      injection Hnext as _ <-. exact Hkeyed.
    + unfold next in Hnext. rewrite HG in Hnext.
      injection Hnext as _ <-. exact Hkeyed.
  - intros [= Hcnext].
    pose proof (cnext_maintains (keyed_at a) (Location.PC loc) fde
                  (Location.File loc) st
                  (fun addr st0 => SetTempBreakpoint_keyed E addr st0 a)
                  Hkeyed) as Hres.
    rewrite Hcnext in Hres. exact Hres.
Qed.
End NextProperties.

(** ** Halt *)

(** X18. [Halt] clears [running] exactly when it returns [nil].  A thread
    that is stopped already is not halted again: the traced process is
    untouched and [nil] is returned.  When halting fails, the error is the
    one of the primitive and the thread record is as it was, [running]
    included.  The breakpoints are never touched. *)
Theorem Halt_running {W : Type} (H : HaltExternals W) (st : State W) :
  let r := Halt H st in
  (Stopped H st = true ->
   r = (Ok tt, with_thread (set_running false (thread st)) st))
  /\ (fst r = Ok tt -> Thread.running (thread (snd r)) = false)
  /\ (forall e, fst r = Err e ->
        Stopped H st = false
        /\ fst (thread_halt H (inferior st)) = Some e
        /\ thread (snd r) = thread st)
  /\ Breakpoints (snd r) = Breakpoints st
  /\ heap (snd r) = heap st.
Proof.
  cbv zeta. unfold Halt.
  destruct (Stopped H st) eqn:Hstopped.
  - cbn. split; [reflexivity|]. split; [reflexivity|].
    split; [discriminate|]. split; reflexivity.
  - destruct (thread_halt H (inferior st)) as [[e|] w] eqn:Hhalt; cbn.
    + split; [discriminate|]. split; [discriminate|].
      split; [|split; reflexivity].
      intros e' [= <-]. split; [reflexivity|]. split; reflexivity.
    + split; [discriminate|]. split; [reflexivity|].
      split; [discriminate|]. split; reflexivity.
Qed.

(** ** onNextGoroutine *)

Section NextGoroutineProperties.
Context {W : Type} (E : Externals W).
Implicit Types (st : State W).

(** The loop over a sequence of entries whose pointers are all valid and
    whose temporary breakpoints all evaluate to [r]. *)
Lemma onNextGoroutine_uniform (order : list (Z * ptr)) st r :
  (forall a p, In (a, p) order -> is_Some (heap st !! p)) ->
  (forall a p b, In (a, p) order -> heap st !! p = Some b ->
     Breakpoint.Temp b = true -> bp_checkCondition E (inferior st) b = r) ->
  onNextGoroutine E order st
  = Ok (if existsb (fun e : Z * ptr =>
                      match heap st !! snd e with
                      | Some b => Breakpoint.Temp b
                      | None => false
                      end) order
        then r else (false, None)).
Proof.
  induction order as [|[a p] rest IH]; intros Hvalid Hagree; [reflexivity|].
  cbn. destruct (Hvalid a p (or_introl eq_refl)) as [b Hb]. rewrite Hb.
  destruct (Breakpoint.Temp b) eqn:Htemp; cbn.
  - f_equal. apply (Hagree a p b); auto. left. reflexivity.
  - apply IH.
    + intros a' p' Hin. apply (Hvalid a' p'). right. exact Hin.
    + intros a' p' b' Hin. apply (Hagree a' p' b'). right. exact Hin.
Qed.

(** X19. The answer of [onNextGoroutine] does not depend on the order in
    which the table is visited, as long as the temporary breakpoints of
    the table agree on their condition (as when there is one only): the
    result is their common result [r], with its error, when the table
    has a temporary breakpoint, and [(false, nil)] when it has none. *)
Theorem onNextGoroutine_order_independent (order : list (Z * ptr)) st r :
  order ≡ₚ map_to_list (Breakpoints st) ->
  (forall a p, Breakpoints st !! a = Some p -> is_Some (heap st !! p)) ->
  (forall a p b, Breakpoints st !! a = Some p -> heap st !! p = Some b ->
     Breakpoint.Temp b = true -> bp_checkCondition E (inferior st) b = r) ->
  ((exists a p b, Breakpoints st !! a = Some p /\ heap st !! p = Some b
                  /\ Breakpoint.Temp b = true) ->
   onNextGoroutine E order st = Ok r)
  /\ ((forall a p b, Breakpoints st !! a = Some p -> heap st !! p = Some b ->
         Breakpoint.Temp b = false) ->
      onNextGoroutine E order st = Ok (false, None)).
Proof.
  intros Hperm Hvalid Hagree.
  assert (Hin : forall a p, In (a, p) order <-> Breakpoints st !! a = Some p).
  { intros a p. rewrite <- list_elem_of_In, Hperm.
    apply elem_of_map_to_list. }
  assert (Hloop := onNextGoroutine_uniform order st r).
  rewrite Hloop.
  2: { intros a p Ha. apply (Hvalid a p). apply Hin. exact Ha. }
  2: { intros a p b Ha. apply (Hagree a p b). apply Hin. exact Ha. }
  split.
  - intros (a & p & b & Ha & Hb & Htemp).
    replace (existsb _ order) with true; [reflexivity|].
    symmetry. apply existsb_exists. exists (a, p).
    split; [apply Hin; exact Ha|]. cbn. rewrite Hb. exact Htemp.
  - intros Hnone.
    replace (existsb _ order) with false; [reflexivity|].
    symmetry. apply not_true_is_false. intros Hex.
    apply existsb_exists in Hex as ([a p] & Ha & Htemp). cbn in Htemp.
    destruct (heap st !! p) as [b|] eqn:Hb; [|discriminate].
    apply Hin in Ha. rewrite (Hnone a p b Ha Hb) in Htemp. discriminate.
Qed.
End NextGoroutineProperties.

(** * The further properties on the small traced process *)

(** A continue from the breakpoint at 256. *)
Lemma threadResume_thread_after_witness :
  Thread.CurrentBreakpoint
    (thread (snd (threadResume (Toy.externals Toy.quiet) ModeResume 0
                    (Toy.onBreakpoint 256)))) = None
  /\ Thread.BreakpointConditionMet
       (thread (snd (threadResume (Toy.externals Toy.quiet) ModeResume 0
                       (Toy.onBreakpoint 256)))) = false
  /\ Thread.running
       (thread (snd (threadResume (Toy.externals Toy.quiet) ModeResume 0
                       (Toy.onBreakpoint 256)))) = true.
Proof.
  destruct (threadResume_thread_after (Toy.externals Toy.quiet) ModeResume 0
              (Toy.onBreakpoint 256)) as (_ & Hcur & Hmet & _ & _ & Hrun).
  - right. exists 1%positive, (Toy.userBreakpoint 256), 256.
    split; [reflexivity|]. split; reflexivity.
  - split; [exact Hcur|]. split; [exact Hmet|exact Hrun].
Defined.

Lemma GetG_offset_uninitialized_witness :
  GetG ToyMore.bootstrapping (Toy.empty 300)
  = Err (errorString "g struct offset not initialized").
Proof.
  apply (GetG_offset_uninitialized ToyMore.bootstrapping (Toy.empty 300)
           {| TLS := 4096 |}).
  - reflexivity.
  - reflexivity.
Defined.

Lemma GetG_short_read_panics_witness :
  GetG ToyMore.narrow (Toy.empty 300) = Panic "index out of range".
Proof.
  apply (GetG_short_read_panics ToyMore.narrow (Toy.empty 300)
           {| TLS := 4096 |} [16; 32; 0; 0]).
  - reflexivity.
  - discriminate.
  - reflexivity.
  - cbn. lia.
Defined.

(** The goroutine slot holds 0x2010: the goroutine decoded there is
    stamped with the thread's id, 1. *)
Lemma GetG_resolved_witness :
  G.thread (G.mk 7 0 (Some 1)) = Some (Thread.ID (thread (Toy.empty 300)))
  /\ exists gaddrbs gaddr,
       thread_readMemory (Toy.externals Toy.quiet) 300 (add64 4096 8) 8
       = inr gaddrbs
       /\ LittleEndian_Uint64 gaddrbs = Some gaddr
       /\ gaddr = 8208.
Proof.
  destruct (GetG_resolved (Toy.externals Toy.quiet) (Toy.empty 300)
              (G.mk 7 0 (Some 1)) eq_refl)
    as (Hthread & regs & gaddrbs & gaddr & typ & g0 & Hregs & _ & Hread
        & Hle & _).
  split; [exact Hthread|].
  injection Hregs as <-. injection Hread as <-. injection Hle as <-.
  exists [16; 32; 0; 0; 0; 0; 0; 0], 8208. repeat split; reflexivity.
Defined.

(** The registers cannot be written: the breakpoint at 256 is recorded,
    the condition is not evaluated. *)
Lemma SetCurrentBreakpoint_rewind_fails_witness :
  fst (SetCurrentBreakpoint ToyMore.narrow (Toy.stoppedAt 256 257))
  = Err (errorString "input/output error")
  /\ Thread.CurrentBreakpoint
       (thread (snd (SetCurrentBreakpoint ToyMore.narrow
                       (Toy.stoppedAt 256 257)))) = Some 1%positive
  /\ Thread.BreakpointConditionMet
       (thread (snd (SetCurrentBreakpoint ToyMore.narrow
                       (Toy.stoppedAt 256 257)))) = false.
Proof.
  destruct (SetCurrentBreakpoint_rewind_fails ToyMore.narrow
              (Toy.stoppedAt 256 257) 257 1%positive (Toy.userBreakpoint 256)
              (errorString "input/output error"))
    as (Herr & Hcur & Hmet & _).
  - reflexivity.
  - reflexivity.
  - reflexivity.
  - right. exists {| TLS := 4096 |}. split; reflexivity.
  - split; [exact Herr|]. split; [exact Hcur|exact Hmet].
Defined.

(** The temporary breakpoint at 336 is hit and its condition is true. *)
Lemma SetCurrentBreakpoint_triggered_witness :
  onTriggeredBreakpoint
    (snd (SetCurrentBreakpoint (Toy.externals Toy.quiet) ToyMore.onTemporary))
  = true
  /\ onTriggeredTempBreakpoint
       (snd (SetCurrentBreakpoint (Toy.externals Toy.quiet)
               ToyMore.onTemporary)) = true.
Proof.
  destruct (SetCurrentBreakpoint_triggered (Toy.externals Toy.quiet)
              ToyMore.onTemporary 337 2%positive
              (Breakpoint.mk "main.main" "main.go" 12 336 true (Some ∅) 0)
              {| TLS := 4096 |} 336 true None)
    as (_ & _ & Htrig & Htemp).
  - reflexivity.
  - reflexivity.
  - reflexivity.
  - reflexivity.
  - reflexivity.
  - reflexivity.
  - split; [exact Htrig|exact Htemp].
Defined.

Lemma SetCurrentBreakpoint_nil_HitCount_panics_witness :
  fst (SetCurrentBreakpoint (Toy.externals Toy.quiet) ToyMore.onPlaceholder)
  = Panic "assignment to entry in nil map"
  /\ heap (snd (SetCurrentBreakpoint (Toy.externals Toy.quiet)
                  ToyMore.onPlaceholder))
     = heap ToyMore.onPlaceholder.
Proof.
  apply (SetCurrentBreakpoint_nil_HitCount_panics (Toy.externals Toy.quiet)
           ToyMore.onPlaceholder 1281 1%positive
           (Breakpoint.mk "" "" 0 1280 false None 0) {| TLS := 4096 |} 1280
           None (G.mk 7 0 (Some 1))).
  all: reflexivity.
Defined.

(** Scenario B with the user breakpoint at 0x110: it is still entry 1
    afterwards. *)
Lemma setNextTempBreakpoints_keeps_breakpoints_witness :
  Breakpoints (snd (setNextTempBreakpoints (Toy.externals Toy.scenarioB) 304
                      [272; 304; 336; 768] (Toy.stoppedAt 272 304))) !! 272
  = Some 1%positive.
Proof.
  apply (proj1 (setNextTempBreakpoints_keeps_breakpoints
                  (Toy.externals Toy.scenarioB) 304 [272; 304; 336; 768]
                  (Toy.stoppedAt 272 304)) 272 1%positive).
  reflexivity.
Defined.

(** Scenario B: the entry at the return address is a temporary
    breakpoint. *)
Lemma setNextTempBreakpoints_adds_temporary_witness :
  exists b,
    heap (snd (setNextTempBreakpoints (Toy.externals Toy.scenarioB) 304
                 [272; 304; 336; 768] (Toy.empty 304))) !! 3%positive = Some b
    /\ Breakpoint.Temp b = true
    /\ Breakpoint.Addr b = 768.
Proof.
  apply (setNextTempBreakpoints_adds_temporary (Toy.externals Toy.scenarioB)
           304 [272; 304; 336; 768] (Toy.empty 304) 768 3%positive).
  - reflexivity.
  - reflexivity.
Defined.

Lemma writer_errors_foreign_toy (c : Toy.config) :
  writer_errors_foreign (Toy.externals c).
Proof. intros w a e He. discriminate. Qed.

Lemma setNextTempBreakpoints_ok_installs_all_witness :
  is_Some (Breakpoints
             (snd (setNextTempBreakpoints (Toy.externals Toy.scenarioB) 304
                     [272; 304; 336; 768] (Toy.empty 304))) !! 336).
Proof.
  apply (setNextTempBreakpoints_ok_installs_all (Toy.externals Toy.scenarioB)
           304 [272; 304; 336; 768] (Toy.empty 304)
           (writer_errors_foreign_toy Toy.scenarioB)).
  - reflexivity.
  - cbn. auto.
  - reflexivity.
Defined.

Lemma setNextTempBreakpoints_idempotent_witness :
  setNextTempBreakpoints (Toy.externals Toy.scenarioB) 304
    [272; 304; 336; 768]
    (snd (setNextTempBreakpoints (Toy.externals Toy.scenarioB) 304
            [272; 304; 336; 768] (Toy.empty 304)))
  = (Ok tt,
     snd (setNextTempBreakpoints (Toy.externals Toy.scenarioB) 304
            [272; 304; 336; 768] (Toy.empty 304))).
Proof.
  apply (setNextTempBreakpoints_idempotent (Toy.externals Toy.scenarioB)
           304 [272; 304; 336; 768] (Toy.empty 304) _
           (writer_errors_foreign_toy Toy.scenarioB)).
  reflexivity.
Defined.

(** [next] on the goroutine that is exiting, with a user breakpoint on the
    entry of its deferred call, 1280: the entry is not in the table when
    [next] has returned. *)
Lemma next_keeps_breakpoints_witness :
  Breakpoints ToyMore.deferEntryBreakpoint !! 1280 = Some 1%positive
  /\ Breakpoints
       (snd (default (Ok tt, ToyMore.deferEntryBreakpoint)
               (next (Toy.externals Toy.exiting) 2
                  (Location.mk 300 "main.go" 20 None) (FDE.mk 256 512)
                  ToyMore.deferEntryBreakpoint))) !! 1280 = None
  /\ heap
       (snd (default (Ok tt, ToyMore.deferEntryBreakpoint)
               (next (Toy.externals Toy.exiting) 2
                  (Location.mk 300 "main.go" 20 None) (FDE.mk 256 512)
                  ToyMore.deferEntryBreakpoint))) !! 1%positive
     = Some (Toy.userBreakpoint 1280).
Proof.
  destruct (next_keeps_breakpoints (Toy.externals Toy.exiting) 2
              (Location.mk 300 "main.go" 20 None) (FDE.mk 256 512)
              ToyMore.deferEntryBreakpoint (G.mk 7 1280 (Some 1))
              (Err (GoroutineExitingError 7))
              (snd (default (Ok tt, ToyMore.deferEntryBreakpoint)
                      (next (Toy.externals Toy.exiting) 2
                         (Location.mk 300 "main.go" 20 None) (FDE.mk 256 512)
                         ToyMore.deferEntryBreakpoint))))
    as (_ & Hgone & Hheap).
  - reflexivity.
  - vm_compute. reflexivity.
  - split; [reflexivity|]. split.
    + apply Hgone. discriminate.
    + apply Hheap. reflexivity.
Defined.

(** The first line of the deferred call, at 1296, has a user breakpoint:
    [next] fails on it. *)
Lemma next_defer_breakpoint_exists_witness :
  exists st',
    next (Toy.externals Toy.exiting) 2 (Location.mk 300 "main.go" 20 None)
      (FDE.mk 256 512) ToyMore.deferBreakpoints
    = Some (Err (BreakpointExistsError 1296), st')
    /\ Breakpoints st' = delete 1280 (Breakpoints ToyMore.deferBreakpoints)
    /\ inferior st' = 300.
Proof.
  apply (next_defer_breakpoint_exists (Toy.externals Toy.exiting) 2
           (Location.mk 300 "main.go" 20 None) (FDE.mk 256 512)
           ToyMore.deferBreakpoints (G.mk 7 1280 (Some 1)) "main.go" 10
           (Some {| Name := "main.cleanup" |}) 1296).
  - reflexivity.
  - discriminate.
  - reflexivity.
  - reflexivity.
  - right. exists 2%positive. reflexivity.
Defined.

Lemma setNextBreakpoints_lookup_error_witness :
  setNextBreakpoints (Toy.externals ToyMore.noFrame) 3 (Toy.empty 304)
  = Some (Err (errorString "could not find FDE for PC"), Toy.empty 304).
Proof.
  apply (setNextBreakpoints_lookup_error (Toy.externals ToyMore.noFrame) 3
           (Toy.empty 304) (errorString "could not find FDE for PC")).
  - reflexivity.
  - right. exists 304. split; reflexivity.
Defined.

(** The table with the user breakpoint on the entry of the deferred call
    is keyed at 1296 before [setNextBreakpoints] and after it, when it
    holds the temporary breakpoint of the deferred call. *)
Lemma setNextBreakpoints_keyed_witness :
  keyed_at 1296
    (snd (default (Ok tt, ToyMore.deferEntryBreakpoint)
            (setNextBreakpoints (Toy.externals Toy.exiting) 2
               ToyMore.deferEntryBreakpoint))).
Proof.
  apply (setNextBreakpoints_keyed (Toy.externals Toy.exiting) 2
           ToyMore.deferEntryBreakpoint (Err (GoroutineExitingError 7))).
  - intros p Hp. discriminate.
  - vm_compute. reflexivity.
Defined.

(** A running thread is halted; a thread whose halt fails stays marked
    as running. *)
Lemma Halt_running_witness :
  Thread.running (thread (snd (Halt ToyMore.halts (ToyMore.running 300))))
  = false
  /\ Thread.running
       (thread (snd (Halt ToyMore.haltFails (ToyMore.running 300)))) = true.
Proof.
  split.
  - apply (proj1 (proj2 (Halt_running ToyMore.halts (ToyMore.running 300)))).
    reflexivity.
  - destruct (proj1 (proj2 (proj2 (Halt_running ToyMore.haltFails
                                     (ToyMore.running 300))))
                (errorString "no such process") eq_refl) as (_ & _ & ->).
    reflexivity.
Defined.

(** One temporary breakpoint, at 336, and a user breakpoint at 272: the
    loop answers with the condition of the temporary one whether it
    meets it first or second. *)
Lemma onNextGoroutine_order_independent_witness :
  onNextGoroutine (Toy.externals Toy.quiet)
    [(336, 2%positive); (272, 1%positive)] ToyMore.stepping = Ok (true, None)
  /\ onNextGoroutine (Toy.externals Toy.quiet)
       [(272, 1%positive); (336, 2%positive)] ToyMore.stepping
     = Ok (true, None).
Proof.
  assert (Hvalid : forall a p, Breakpoints ToyMore.stepping !! a = Some p ->
            is_Some (heap ToyMore.stepping !! p)).
  { intros a p Hp. apply elem_of_map_to_list in Hp.
    vm_compute in Hp. 
    apply list_elem_of_In in Hp.
    destruct Hp as [[= <- <-]|[[= <- <-]|[]]]; vm_compute; eauto. }
  assert (Hagree : forall a p b, Breakpoints ToyMore.stepping !! a = Some p ->
            heap ToyMore.stepping !! p = Some b -> Breakpoint.Temp b = true ->
            bp_checkCondition (Toy.externals Toy.quiet)
              (inferior ToyMore.stepping) b = (true, None))
    by reflexivity.
  assert (Htemp : exists a p b,
            Breakpoints ToyMore.stepping !! a = Some p
            /\ heap ToyMore.stepping !! p = Some b
            /\ Breakpoint.Temp b = true).
  { exists 336, 2%positive. eexists. split; [reflexivity|].
    split; [vm_compute; reflexivity|reflexivity]. }
  split.
  - apply (proj1 (onNextGoroutine_order_independent (Toy.externals Toy.quiet)
                    [(336, 2%positive); (272, 1%positive)] ToyMore.stepping
                    (true, None) ltac:(vm_compute; reflexivity)
                    Hvalid Hagree) Htemp).
  - apply (proj1 (onNextGoroutine_order_independent (Toy.externals Toy.quiet)
                    [(272, 1%positive); (336, 2%positive)] ToyMore.stepping
                    (true, None) ltac:(vm_compute; apply perm_swap)
                    Hvalid Hagree) Htemp).
Defined.

Section InstalledTargets.
Context {W : Type} (E : Externals W).
Implicit Types (st : State W).

(** X20. What a caller has after a step-over setup that returned [nil],
    the trap writer not reporting [BreakpointExistsError] itself.  After
    [cnext]: a breakpoint at the return address and at every line-table
    PC of the file from the start of the frame to its end, the current
    PC and the current PC minus one apart.  After [next] on a goroutine
    without deferred call: a breakpoint at the return address and at
    every candidate of [next], with the same two exceptions; the
    goroutine was not found to be exiting. *)
Theorem step_over_ok_installs_targets st ret :
  writer_errors_foreign E ->
  thread_ReturnAddress E (inferior st) = inr ret ->
  (forall curpc fde file,
     fst (cnext E curpc fde file st) = Ok tt ->
     forall pc, In pc (cnext_pcs E fde file ++ [ret]) ->
       (pc =? curpc) || (pc =? sub64 curpc 1) = false ->
       is_Some (Breakpoints (snd (cnext E curpc fde file st)) !! pc))
  /\ (forall fuel curloc fde g st',
        GetG E st = Ok g -> G.DeferPC g = 0 ->
        next E fuel curloc fde st = Some (Ok tt, st') ->
        forall pc, In pc (next_pcs E curloc fde ++ [ret]) ->
          (pc =? Location.PC curloc)
          || (pc =? sub64 (Location.PC curloc) 1) = false ->
          is_Some (Breakpoints st' !! pc)).
Proof.
  intros Hw Hret. split.
  - intros curpc fde file. unfold cnext. rewrite Hret.
    apply setNextTempBreakpoints_ok_installs_all. exact Hw.
  - intros fuel curloc fde g st' HG Hdefer. unfold next.
    rewrite HG, Hdefer. cbn. unfold nextFromReturnAddress. rewrite Hret.
    match goal with |- context [if ?c then _ else _] => destruct c end.
    + rewrite HG. discriminate.
    + intros [= Hrun]. intros pc Hin Hskip.
      pose proof (setNextTempBreakpoints_ok_installs_all E
                    (Location.PC curloc) (next_pcs E curloc fde ++ [ret]) st Hw)
        as Hall.
      rewrite Hrun in Hall. apply Hall; [reflexivity|exact Hin|exact Hskip].
Qed.
End InstalledTargets.

(** Scenario B through [next]: the return address, 0x300, has its
    breakpoint. *)
Lemma step_over_ok_installs_targets_witness :
  is_Some (Breakpoints
             (snd (default (Ok tt, Toy.empty 304)
                     (next (Toy.externals Toy.scenarioB) 0
                        (Location.mk 304 "main.go" 10 None) (FDE.mk 256 512)
                        (Toy.empty 304)))) !! 768).
Proof.
  apply (proj2 (step_over_ok_installs_targets (Toy.externals Toy.scenarioB)
                  (Toy.empty 304) 768
                  (writer_errors_foreign_toy Toy.scenarioB) eq_refl)
           0%nat (Location.mk 304 "main.go" 10 None) (FDE.mk 256 512)
           (G.mk 7 0 (Some 1))).
  - reflexivity.
  - reflexivity.
  - vm_compute. reflexivity.
  - vm_compute. auto 6.
  - reflexivity.
Defined.

(** X2. When the trap of the current breakpoint cannot be cleared,
    [threadResume] returns the error of [bp.Clear] in every mode, the
    unknown ones included: the thread record is untouched (the thread is
    still on its breakpoint, with its condition result), nothing is
    executed or logged, and the breakpoints are as they were. *)
Theorem threadResume_clear_error
    {W : Type} (E : Externals W) mode sig (st : State W) bp b e :
  Thread.CurrentBreakpoint (thread st) = Some bp ->
  heap st !! bp = Some b ->
  fst (bp_Clear E (inferior st) b) = Some e ->
  let r := threadResume E mode sig st in
  fst r = Err e
  /\ thread (snd r) = thread st
  /\ inferior (snd r) = snd (bp_Clear E (inferior st) b)
  /\ logged (snd r) = logged st
  /\ Breakpoints (snd r) = Breakpoints st
  /\ heap (snd r) = heap st.
Proof.
  intros Hcur Hheap Hclear. cbv zeta. unfold threadResume.
  rewrite Hcur, Hheap.
  destruct (bp_Clear E (inferior st) b) as [err w1]. cbn in Hclear.
  subst err. cbn. auto 10.
Qed.

(** The trap at 256 cannot be cleared: the thread stays on its
    breakpoint. *)
Lemma threadResume_clear_error_witness :
  fst (threadResume ToyMore.narrow ModeStepInstruction 0
         (Toy.onBreakpoint 256))
  = Err (errorString "could not clear breakpoint")
  /\ thread (snd (threadResume ToyMore.narrow ModeStepInstruction 0
                    (Toy.onBreakpoint 256)))
     = thread (Toy.onBreakpoint 256).
Proof.
  destruct (threadResume_clear_error ToyMore.narrow ModeStepInstruction 0
              (Toy.onBreakpoint 256) 1%positive (Toy.userBreakpoint 256)
              (errorString "could not clear breakpoint"))
    as (Herr & Hthread & _).
  - reflexivity.
  - reflexivity.
  - reflexivity.
  - split; [exact Herr|exact Hthread].
Defined.

(** No line after line 10 of main.go maps to a PC, and the scan from
    line 10 ends all the same: after [2^64] increments [lineno] is 10
    again, the line of the deferred call, which maps to 1280. *)
Lemma scanDeferLine_ends_after_wrap_around :
  (forall n pc,
     10 < n ->
     Dwarf_LineToPC (Toy.externals ToyMore.onlyDeferLine) "main.go" n
     <> inr pc)
  /\ exists fuel,
       scanDeferLine (Toy.externals ToyMore.onlyDeferLine) fuel "main.go" 10
       = Some 1280.
Proof.
  split.
  - intros n pc Hn. cbn. destruct (n =? 10) eqn:Heq; [lia|discriminate].
  - exists (Z.to_nat (2 ^ 64)).
    apply (scanDeferLine_first (Toy.externals ToyMore.onlyDeferLine)
             (Z.to_nat (2 ^ 64)) "main.go" 10 (2 ^ 64) 1280).
    + rewrite Z2Nat.id by lia. lia.
    + reflexivity.
    + intros j pc' Hj.
      change (Dwarf_LineToPC (Toy.externals ToyMore.onlyDeferLine) "main.go"
                (wrap_int (10 + j)))
        with (if wrap_int (10 + j) =? 10
              then (inr 1280 : error + Z)
              else inl (errorString "no code at line")).
      assert (Hne : wrap_int (10 + j) <> 10).
      { unfold wrap_int.
        destruct (Z_lt_le_dec (10 + j + 2 ^ 63) (2 ^ 64)) as [Hlt|Hge].
        - rewrite Z.mod_small by lia. lia.
        - replace (10 + j + 2 ^ 63)
            with (10 + j + 2 ^ 63 - 2 ^ 64 + 1 * 2 ^ 64) by lia.
          rewrite Z_mod_plus_full, Z.mod_small by lia. lia. }
      apply Z.eqb_neq in Hne. rewrite Hne. discriminate.
Qed.

(** ** Revised and added statements *)

Section LoopErrors.
Context {W : Type} (E : Externals W).
Implicit Types (st : State W).

(** The loop over two runs of targets is the loop over the first, then,
    if that returned [nil], the loop over the second. *)
Lemma setNextTempBreakpoints_app curpc l1 l2 st :
  setNextTempBreakpoints E curpc (l1 ++ l2) st
  = match setNextTempBreakpoints E curpc l1 st with
    | (Ok _, st1) => setNextTempBreakpoints E curpc l2 st1
    | r => r
    end.
Proof.
  revert st. induction l1 as [|pc rest IH]; intros st; cbn; [reflexivity|].
  destruct ((pc =? curpc) || (pc =? sub64 curpc 1)); [apply IH|].
  destruct (SetTempBreakpoint E pc st) as [[p|e|m] st']; [apply IH| |].
  - destruct (isBreakpointExistsError e); [apply IH|reflexivity].
  - reflexivity.
Qed.

(** X21. [setNextTempBreakpoints] returns an error exactly when, the
    targets before some target having been gone through with [nil], the
    installer fails at that target, which is not one to skip, with an
    error other than [BreakpointExistsError]: wherever the target stands
    in the list, the error returned is that error and the state is the
    one the installer left, the targets after it not being attempted. *)
Theorem setNextTempBreakpoints_error_iff curpc pcs st e st' :
  setNextTempBreakpoints E curpc pcs st = (Err e, st')
  <-> exists l1 pc l2 st1,
        pcs = (l1 ++ pc :: l2)%list
        /\ setNextTempBreakpoints E curpc l1 st = (Ok tt, st1)
        /\ (pc =? curpc) || (pc =? sub64 curpc 1) = false
        /\ SetTempBreakpoint E pc st1 = (Err e, st')
        /\ isBreakpointExistsError e = false.
Proof.
  split.
  - revert st. induction pcs as [|pc rest IH]; intros st; cbn;
      [discriminate|].
    destruct ((pc =? curpc) || (pc =? sub64 curpc 1)) eqn:Hskip.
    { intros Hrun.
      destruct (IH st Hrun) as (l1 & pc' & l2 & st1 & -> & Hl1 & Hrest).
      exists (pc :: l1), pc', l2, st1. split; [reflexivity|].
      split; [cbn; rewrite Hskip; exact Hl1|exact Hrest]. }
    assert (Hgo : forall st0,
              (forall r, setNextTempBreakpoints E curpc [pc] st = (r, st0) ->
                         r = Ok tt) ->
              snd (setNextTempBreakpoints E curpc [pc] st) = st0 ->
              setNextTempBreakpoints E curpc rest st0 = (Err e, st') ->
              exists l1 pc' l2 st1,
                (pc :: rest = l1 ++ pc' :: l2)%list
                /\ setNextTempBreakpoints E curpc l1 st = (Ok tt, st1)
                /\ (pc' =? curpc) || (pc' =? sub64 curpc 1) = false
                /\ SetTempBreakpoint E pc' st1 = (Err e, st')
                /\ isBreakpointExistsError e = false).
    { intros st0 Hok Hst0 Hrun.
      destruct (IH st0 Hrun) as (l1 & pc' & l2 & st1 & -> & Hl1 & Hrest).
      exists (pc :: l1), pc', l2, st1. split; [reflexivity|].
      split; [|exact Hrest].
      change (pc :: l1) with ([pc] ++ l1)%list.
      rewrite setNextTempBreakpoints_app.
      destruct (setNextTempBreakpoints E curpc [pc] st) as [r0 s0] eqn:Hone.
      cbn in Hst0. subst s0. rewrite (Hok r0 eq_refl). exact Hl1. }
    destruct (SetTempBreakpoint E pc st) as [[p|e0|m] st0] eqn:Hset.
    + apply Hgo; cbn; rewrite Hskip, Hset; [|reflexivity].
      intros r Hr. congruence.
    + destruct (isBreakpointExistsError e0) eqn:He0.
      * apply Hgo; cbn; rewrite Hskip, Hset, He0; [|reflexivity].
        intros r Hr. congruence.
      * intros [= <- <-]. exists [], pc, rest, st.
        split; [reflexivity|]. split; [reflexivity|].
        split; [exact Hskip|]. split; [exact Hset|exact He0].
    + discriminate.
  - intros (l1 & pc & l2 & st1 & -> & Hl1 & Hskip & Hset & He).
    rewrite setNextTempBreakpoints_app, Hl1. cbn.
    rewrite Hskip, Hset, He. reflexivity.
Qed.
End LoopErrors.

(** Scenario B on a process where the trap cannot be written at 0x150:
    the breakpoint at 0x110 is installed, the error at 0x150 is returned
    and the return address, 0x300, is not attempted. *)
Lemma setNextTempBreakpoints_error_iff_witness :
  exists st',
    setNextTempBreakpoints (ToyMore.writeFailsAt 336) 304
      [272; 304; 336; 768] (Toy.empty 304)
    = (Err (errorString "input/output error"), st')
    /\ is_Some (Breakpoints st' !! 272)
    /\ Breakpoints st' !! 768 = None.
Proof.
  eexists. split.
  - apply (proj2 (setNextTempBreakpoints_error_iff (ToyMore.writeFailsAt 336)
                    304 [272; 304; 336; 768] (Toy.empty 304)
                    (errorString "input/output error") _)).
    exists [272; 304], 336, [768].
    eexists. split; [reflexivity|].
    split; [vm_compute; reflexivity|].
    split; [reflexivity|]. split; [vm_compute; reflexivity|reflexivity].
  - split; vm_compute; eauto.
Defined.

(** C8. Step-over setup on a goroutine with a deferred call, in the
    frame of scenario B.  With no breakpoint in the way [next] returns
    [nil]; a user breakpoint that is already at a candidate, 0x110, is
    tolerated and [next] returns [nil]; but with a user breakpoint
    already on the first line of the deferred call, at 1296, [next]
    returns [BreakpointExistsError] and the table holds nothing but that
    breakpoint: no step target is installed. *)
Theorem next_aborts_on_existing_defer_breakpoint :
  let E := Toy.externals ToyMore.deferring in
  let curloc := Location.mk 304 "main.go" 20 None in
  let fde := FDE.mk 256 512 in
  (exists st',
     next E 2 curloc fde (Toy.empty 304) = Some (Ok tt, st')
     /\ is_Some (Breakpoints st' !! 768)
     /\ is_Some (Breakpoints st' !! 1296))
  /\ (exists st',
        next E 2 curloc fde (Toy.stoppedAt 272 304) = Some (Ok tt, st')
        /\ is_Some (Breakpoints st' !! 768)
        /\ is_Some (Breakpoints st' !! 1296))
  /\ (exists st',
        next E 2 curloc fde ToyMore.deferLineBreakpoint
        = Some (Err (BreakpointExistsError 1296), st')
        /\ Breakpoints st' = Breakpoints ToyMore.deferLineBreakpoint
        /\ Breakpoints st' !! 272 = None
        /\ Breakpoints st' !! 336 = None
        /\ Breakpoints st' !! 768 = None).
Proof.
  cbv zeta. split; [|split].
  - eexists. split; [vm_compute; reflexivity|]. split; vm_compute; eauto.
  - eexists. split; [vm_compute; reflexivity|]. split; vm_compute; eauto.
  - eexists. split; [vm_compute; reflexivity|].
    split; [vm_compute; reflexivity|]. repeat split; vm_compute; reflexivity.
Qed.

Section ExitingDiagnosis.
Context {W : Type} (E : Externals W).
Implicit Types (st : State W).

(** X15. [next] diagnoses a goroutine as exiting only when the frame has
    no line-table PC.  Every candidate that [next] collects is covered
    by the frame; so as soon as there is a candidate, [next] goes on to
    the installation of the candidates and of the return address,
    whatever function the return address is in, [runtime.goexit]
    included: after the deferred-call stage from any state, and as a
    whole on a goroutine without deferred call. *)
Theorem next_with_candidates_not_exiting curloc fde :
  0 < FDE.End fde <= 2 ^ 64 ->
  (forall pc, In pc (next_pcs E curloc fde) -> FDE.Cover fde pc = true)
  /\ (forall st ret,
        next_pcs E curloc fde <> [] ->
        thread_ReturnAddress E (inferior st) = inr ret ->
        nextFromReturnAddress E curloc fde (next_pcs E curloc fde) st
        = setNextTempBreakpoints E (Location.PC curloc)
            (next_pcs E curloc fde ++ [ret]) st)
  /\ (forall fuel st g ret,
        next_pcs E curloc fde <> [] ->
        GetG E st = Ok g -> G.DeferPC g = 0 ->
        thread_ReturnAddress E (inferior st) = inr ret ->
        next E fuel curloc fde st
        = Some (setNextTempBreakpoints E (Location.PC curloc)
                  (next_pcs E curloc fde ++ [ret]) st)).
Proof.
  intros Hend.
  assert (Htail : forall st ret,
            next_pcs E curloc fde <> [] ->
            thread_ReturnAddress E (inferior st) = inr ret ->
            nextFromReturnAddress E curloc fde (next_pcs E curloc fde) st
            = setNextTempBreakpoints E (Location.PC curloc)
                (next_pcs E curloc fde ++ [ret]) st).
  { intros st ret Hne Hret. unfold nextFromReturnAddress. rewrite Hret.
    apply (next_covered_iff_candidates E curloc fde Hend) in Hne.
    rewrite Hne. reflexivity. }
  split; [|split; [exact Htail|]].
  - intros pc Hin.
    apply (next_pcs_range E curloc fde pc Hend) in Hin as [_ Hrange].
    unfold FDE.Cover, FDE.Begin, FDE.End in *.
    apply andb_true_iff. split; lia.
  - intros fuel st g ret Hne HG Hdefer Hret. unfold next.
    rewrite HG, Hdefer. cbn. f_equal. apply Htail; assumption.
Qed.
End ExitingDiagnosis.

(** Scenario B in the outermost frame of a goroutine: the return address
    is in [runtime.goexit] and the frame has candidates, so [next] does
    not report the goroutine as exiting: it installs the breakpoints. *)
Lemma next_with_candidates_not_exiting_witness :
  next (Toy.externals ToyMore.lastFrame) 0
    (Location.mk 304 "main.go" 10 None) (FDE.mk 256 512) (Toy.empty 304)
  = Some (setNextTempBreakpoints (Toy.externals ToyMore.lastFrame) 304
            [272; 304; 336; 768] (Toy.empty 304))
  /\ fst (setNextTempBreakpoints (Toy.externals ToyMore.lastFrame) 304
            [272; 304; 336; 768] (Toy.empty 304)) = Ok tt.
Proof.
  split; [|reflexivity].
  apply (proj2 (proj2 (next_with_candidates_not_exiting
                         (Toy.externals ToyMore.lastFrame)
                         (Location.mk 304 "main.go" 10 None) (FDE.mk 256 512)
                         ltac:(cbn; lia)))
           0%nat (Toy.empty 304) (G.mk 7 0 (Some 1)) 768).
  - discriminate.
  - reflexivity.
  - reflexivity.
  - reflexivity.
Defined.
